(** * dune-evalview: the vertex registry and point location of [tree::Root]

    A shallow embedding of
    - [src/dune/tree/root.hpp]  ([tree::Root]: constructor, copy constructor,
      [fillTreeStats], [findEntity]),
    - [src/dune/root.hpp]       ([evalview::Root]: constructor),
    - [src/dune/test.cpp]       ([Trajectory]),
    followed by the properties of these functions.

    The scalar type [Real] is IEEE binary64, as [test.cpp] instantiates the
    templates ([ALUSimplexP1Traits<double, 2, ...>]); it is embedded as Rocq's
    primitive [float], so every definition below evaluates. *)

From Stdlib Require Import ZArith List Bool Lia Floats.PrimFloat Uint63.
From stdpp Require Import base option list strings.

Set Default Proof Using "Type".

(* ===================================================================== *)
(** ** C++ run-time notions the sources rely on                           *)
(* ===================================================================== *)

Module Cxx.

(** How the body of a function ends. *)
Inductive outcome (A : Type) : Type :=
| Return (a : A)   (* a [return] statement, or the end of a [void] body *)
| Throw            (* the statement [throw;] was evaluated: no operand  *)
| Undefined.       (* a null or dangling pointer was dereferenced       *)
Arguments Return {A} a.
Arguments Throw {A}.
Arguments Undefined {A}.

(** What the caller observes.  A throw-expression without operand rethrows
    the exception that is being handled at that moment; when none is being
    handled it calls [std::terminate] ([except.throw]). *)
Inductive completion (E A : Type) : Type :=
| Value (a : A)
| Propagates (e : E)
| Terminate
| Unspecified.
Arguments Value {E A} a.
Arguments Propagates {E A} e.
Arguments Terminate {E A}.
Arguments Unspecified {E A}.

Definition unwind {E A : Type} (handled : option E) (o : outcome A) : completion E A :=
  match o with
  | Return a => Value a
  | Throw => match handled with Some e => Propagates e | None => Terminate end
  | Undefined => Unspecified
  end.

(** [std::vector<A>]: the elements live in one allocated block; the block
    is identified by a serial number, replaced on every reallocation. *)
Record vector (A : Type) : Type := mk_vector {
  buffer   : nat;
  capacity : nat;
  elems    : list A
}.
Arguments mk_vector {A} _ _ _.
Arguments buffer {A} _.
Arguments capacity {A} _.
Arguments elems {A} _.

(** The growth policy of the standard library in use. *)
Class Growth : Type := grow : nat → nat.

(** libstdc++ ([_M_check_len]): a full vector doubles, an empty one gets
    room for one element. *)
Definition libstdcxx : Growth := fun c => Nat.max 1 (2 * c).

Definition vector_new {A : Type} : vector A := mk_vector 0 0 [].

Definition size {A : Type} (v : vector A) : nat := length (elems v).

(** [push_back]: in place while there is room, otherwise the elements move
    to a fresh block and every pointer into the old one is invalidated. *)
Definition push_back {GP : Growth} {A : Type} (v : vector A) (x : A) : vector A :=
  if size v <? capacity v
  then mk_vector (buffer v) (capacity v) (elems v ++ [x])
  else mk_vector (S (buffer v)) (grow (capacity v)) (elems v ++ [x]).

(** An address inside a vector's storage. *)
Record pointer : Type := mk_pointer { block : nat; offset : nat }.

(** [&(v.back())] *)
Definition back_ptr {A : Type} (v : vector A) : pointer :=
  mk_pointer (buffer v) (Nat.pred (size v)).

(** [*p] for a pointer taken into [v]: defined only while the block it
    points into is still the vector's storage. *)
Definition deref {A : Type} (v : vector A) (p : pointer) : option A :=
  if block p =? buffer v then elems v !! offset p else None.

#[global] Instance pointer_eq_dec : EqDecision pointer.
Proof. solve_decision. Defined.

End Cxx.

Import Cxx.

(* ===================================================================== *)
(** ** Coordinates                                                         *)
(* ===================================================================== *)

Definition Real : Type := float.

(** [std::numeric_limits<double>::epsilon()] *)
Definition epsilon : Real := 0x1p-52%float.

(** [Traits::dimw] of the instantiation in [test.cpp]. *)
Definition dimw : nat := 2.

(** [Traits::LinaVector], a [ShortVector<Real, dim>]. *)
Definition LinaVector : Type := list Real.

(** [a - b] on short vectors. *)
Definition vsub (a b : LinaVector) : LinaVector := zip_with PrimFloat.sub a b.

(** Modelled from the spec: [math::norm2] is declared outside the sources;
    the spec calls the quantity compared with the tolerance the Euclidean
    distance. *)
Definition norm2 (a : LinaVector) : Real :=
  PrimFloat.sqrt (fold_left (fun s c => PrimFloat.add s (PrimFloat.mul c c)) a 0%float).

(** The test of line 106:
    [math::norm2( vl->_global - gl ) < 10. * std::numeric_limits<Real>::epsilon()],
    [vl] being the vertex the iterator points to. *)
Definition within_tolerance (g gl : LinaVector) : bool :=
  PrimFloat.ltb (norm2 (vsub g gl)) (PrimFloat.mul 10%float epsilon).

(* ===================================================================== *)
(** ** BoundingBox                                                         *)
(* ===================================================================== *)

(** What the constructors need of a bounding box: a fresh one and [append]. *)
Class Box (B : Type) : Type := {
  box_new : B;
  append  : B → LinaVector → B
}.

(** Modelled from the spec: the class BoundingBox is declared outside the
    sources.  Spec 4.1: [append] extends min/max per axis to include the
    coordinate, [contains] is inclusive, and the box before any [append] has
    min = +inf, max = -inf on every axis. *)
Record BoundingBox : Type := mk_box { box_min : LinaVector; box_max : LinaVector }.

Definition fmin (a b : Real) : Real := if PrimFloat.ltb b a then b else a.
Definition fmax (a b : Real) : Real := if PrimFloat.ltb a b then b else a.

Definition BoundingBox_empty : BoundingBox :=
  mk_box (replicate dimw PrimFloat.infinity) (replicate dimw PrimFloat.neg_infinity).

Definition BoundingBox_append (b : BoundingBox) (x : LinaVector) : BoundingBox :=
  mk_box (zip_with fmin (box_min b) x) (zip_with fmax (box_max b) x).

Definition BoundingBox_contains (b : BoundingBox) (x : LinaVector) : bool :=
  forallb id (zip_with PrimFloat.leb (box_min b) x)
  && forallb id (zip_with PrimFloat.leb x (box_max b)).

#[global] Instance extent_box : Box BoundingBox :=
  {| box_new := BoundingBox_empty; append := BoundingBox_append |}.

(** The same interface, recording the arguments of the [append] calls in
    the order they are made. *)
#[global] Instance append_log : Box (list LinaVector) :=
  {| box_new := []; append := fun log x => log ++ [x] |}.

(* ===================================================================== *)
(** ** The mesh collaborator                                               *)
(* ===================================================================== *)

(** The part of [Traits] and of the DUNE grid that [tree::Root] uses and
    never looks into. *)
Class Grid : Type := {
  EntitySeed    : Type;
  EntityPointer : Type;
  (** [_grid.entityPointer(seed)] *)
  entityPointer : EntitySeed → EntityPointer;
  (** [gre.checkInside(geo.local(xg))] for the geometry [geo] of the entity
      and the reference element [gre] of its type *)
  checkInside_local : EntityPointer → LinaVector → bool
}.

(* ===================================================================== *)
(** ** tree::Root  (src/dune/tree/root.hpp)                                *)
(* ===================================================================== *)

Module Tree.

(** [Node<GV>::Vertex]: the two members this file touches. *)
Record Vertex : Type := mk_Vertex {
  _global      : LinaVector;
  _entity_seed : list pointer      (* [EntitySeed*], in push_back order *)
}.

(** [new Vertex()]: no incident seeds; the coordinate is overwritten
    before it is read. *)
Definition Vertex_new : Vertex := mk_Vertex [] [].

(** The members of the base class [Node<GV>] this file uses. *)
Record Node (B : Type) : Type := mk_Node {
  _bounding_box : B;
  _vertex       : list Vertex
}.
Arguments mk_Node {B} _ _.
Arguments _bounding_box {B} _.
Arguments _vertex {B} _.

(** [Node<GV>::TreeStats]: the members [Root::fillTreeStats] touches.  The
    counters are unsigned integers, the averages are [Real]. *)
Record TreeStats : Type := mk_TreeStats {
  numNodes           : Z;
  numLeafs           : Z;
  numVertices        : Z;
  aveLevel           : Real;
  aveLeafLevel       : Real;
  aveVertices        : Real;
  aveEntitiesPerLeaf : Real
}.

(** A [TreeStats] with every counter and every sum at zero. *)
Definition TreeStats_zero : TreeStats :=
  mk_TreeStats 0%Z 0%Z 0%Z 0%float 0%float 0%float 0%float.

(** [static_cast<Real>(n)] for an unsigned counter [n]. *)
Definition Real_of_unsigned (n : Z) : Real := PrimFloat.of_uint63 (Uint63.of_Z n).

Section Root.
Context {G : Grid} {GP : Growth} {B : Type} {BX : Box B}.

Record Root : Type := mk_Root {
  Root_Node :> Node B;
  _entities : vector EntitySeed
}.

(** A mesh element as the constructor sees it: [e->seed()] and
    [e->geometry().corner(k)] for [k < corners()]. *)
Record Entity : Type := mk_Entity {
  seed    : EntitySeed;
  corners : list LinaVector
}.

(** Modelled from the spec: the default constructor of [Node<GV>] is
    declared outside the sources; a default-initialised node has no
    vertex and a box that has absorbed nothing. *)
Definition Node_default : Node B := mk_Node box_new [].

(** Line 80: [Root( const Root<GridView>& root ) {};] -- no member
    initialiser and an empty body. *)
Definition Root_copy (root : Root) : Root := mk_Root Node_default vector_new.

(** *** The constructor, lines 88-127 *)

(** State of the constructor: the object under construction and the
    local [_l_vertex]. *)
Record Ctor : Type := mk_Ctor {
  this      : Root;
  _l_vertex : list Vertex
}.

(** Lines 105-108.  The loop has no [break]: [_v] ends as the last
    vertex of [_l_vertex] that passes the test. *)
Fixpoint scan (l : list Vertex) (k : nat) (gl : LinaVector) (_v : option nat) : option nat :=
  match l with
  | [] => _v
  | vl :: l' =>
      scan l' (S k) gl (if within_tolerance (_global vl) gl then Some k else _v)
  end.

Definition find_vertex (l : list Vertex) (gl : LinaVector) : option nat :=
  scan l 0 gl None.

(** Position in [_l_vertex] of the vertex [_v] points to at line 116. *)
Definition resolved (l : list Vertex) (gl : LinaVector) : nat :=
  match find_vertex l gl with
  | Some i => i
  | None => length l
  end.

(** Lines 117-118, through the pointer [_v]. *)
Definition store (gl : LinaVector) (es : pointer) (v : Vertex) : Vertex :=
  mk_Vertex gl (_entity_seed v ++ [es]).

(** The body of the loop over the corners, lines 101-118. *)
Definition corner_step (c : Ctor) (gl : LinaVector) : Ctor :=
  let es := back_ptr (_entities (this c)) in
  match find_vertex (_l_vertex c) gl with
  | Some i =>
      mk_Ctor (this c) (alter (store gl es) i (_l_vertex c))
  | None =>
      let l := _l_vertex c ++ [Vertex_new] in
      let box := append (_bounding_box (this c)) gl in
      mk_Ctor (mk_Root (mk_Node box (_vertex (this c))) (_entities (this c)))
              (alter (store gl es) (length (_l_vertex c)) l)
  end.

(** Line 94. *)
Definition enter (c : Ctor) (e : Entity) : Ctor :=
  mk_Ctor (mk_Root (Root_Node (this c)) (push_back (_entities (this c)) (seed e)))
          (_l_vertex c).

(** The body of the loop over the elements, lines 93-120. *)
Definition element_step (c : Ctor) (e : Entity) : Ctor :=
  fold_left corner_step (corners e) (enter c e).

Definition Ctor_init : Ctor := mk_Ctor (mk_Root Node_default vector_new) [].

(** The constructor up to line 123; line 126 hands [_l_vertex] to
    [Node::put], which is declared outside the sources. *)
Definition Root_ctor (gridview : list Entity) : Ctor :=
  fold_left element_step gridview Ctor_init.

(** *** findEntity, lines 157-179 *)

(** The loop of lines 168-176 followed by line 178. *)
Fixpoint scan_seeds (ents : vector EntitySeed) (x : LinaVector) (l : list pointer)
  : outcome EntityPointer :=
  match l with
  | [] => Throw
  | es :: l' =>
      match deref ents es with
      | None => Undefined
      | Some s =>
          let ep := entityPointer s in
          if checkInside_local ep x then Return ep else scan_seeds ents x l'
      end
  end.

(** [findNode] belongs to [Node<GV>], outside the sources: it is a
    parameter, [None] standing for the null pointer.  [vertex(0)] is the
    first entry of the node's [_vertex]. *)
Definition findEntity (findNode : LinaVector → option (Node B)) (root : Root)
    (x : LinaVector) : outcome EntityPointer :=
  match findNode x with
  | None => Undefined
  | Some node =>
      match _vertex node !! 0 with
      | None => Undefined
      | Some v => scan_seeds (_entities root) x (_entity_seed v)
      end
  end.

(** *** fillTreeStats, lines 140-148 *)

(** [Node<GV>::fillTreeStats], which accumulates the counters and the sums,
    is declared outside the sources and is a parameter.  The four compound
    divisions are unguarded floating-point divisions. *)
Definition fillTreeStats (Node_fillTreeStats : TreeStats → TreeStats) (root : Root)
    (ts : TreeStats) : TreeStats :=
  let ts := Node_fillTreeStats ts in
  mk_TreeStats
    (numNodes ts)
    (numLeafs ts)
    (Z.of_nat (length (_vertex root)))
    (PrimFloat.div (aveLevel ts) (Real_of_unsigned (numNodes ts)))
    (PrimFloat.div (aveLeafLevel ts) (Real_of_unsigned (numLeafs ts)))
    (PrimFloat.div (aveVertices ts) (Real_of_unsigned (numNodes ts)))
    (PrimFloat.div (aveEntitiesPerLeaf ts) (Real_of_unsigned (numLeafs ts))).

(** *** What the registration pass did, corner by corner *)

(** For each corner of [cs], in order: the position in [_l_vertex] of the
    vertex the corner was resolved to, and the corner. *)
Fixpoint corner_trace (c : Ctor) (cs : list LinaVector) : list (nat * LinaVector) :=
  match cs with
  | [] => []
  | gl :: cs' => (resolved (_l_vertex c) gl, gl) :: corner_trace (corner_step c gl) cs'
  end.

Fixpoint trace (c : Ctor) (gridview : list Entity) : list (nat * LinaVector) :=
  match gridview with
  | [] => []
  | e :: gridview' =>
      corner_trace (enter c e) (corners e) ++ trace (element_step c e) gridview'
  end.

Definition registration (gridview : list Entity) : list (nat * LinaVector) :=
  trace Ctor_init gridview.

(** The corners resolved to the vertex at position [i], in order. *)
Definition resolved_to (i : nat) (tr : list (nat * LinaVector)) : list LinaVector :=
  (filter (λ p, p.1 = i) tr).*2.

(** Every vertex stores the corner that was resolved to it last. *)
Definition stores_last (c : Ctor) (tr : list (nat * LinaVector)) : Prop :=
  ∀ i v, _l_vertex c !! i = Some v → last (resolved_to i tr) = Some (_global v).

(** The seed behind [es] is live and its element does not contain [x]. *)
Definition rejected (ents : vector EntitySeed) (x : LinaVector) (es : pointer) : Prop :=
  ∃ s, deref ents es = Some s ∧ checkInside_local (entityPointer s) x = false.

(** Every pointer stored in a vertex was taken into the current block of
    [_entities] or into an earlier one. *)
Definition pointers_not_ahead (c : Ctor) : Prop :=
  ∀ v p, v ∈ _l_vertex c → p ∈ _entity_seed v → block p ≤ buffer (_entities (this c)).

(** For each corner of [cs], in order: the position of the vertex it was
    resolved to and the position [k] in the grid view of its element. *)
Fixpoint corner_owners (k : nat) (c : Ctor) (cs : list LinaVector) : list (nat * nat) :=
  match cs with
  | [] => []
  | gl :: cs' => (resolved (_l_vertex c) gl, k) :: corner_owners k (corner_step c gl) cs'
  end.

Fixpoint owners (k : nat) (c : Ctor) (gridview : list Entity) : list (nat * nat) :=
  match gridview with
  | [] => []
  | e :: gridview' =>
      corner_owners k (enter c e) (corners e) ++ owners (S k) (element_step c e) gridview'
  end.

Definition incidence (gridview : list Entity) : list (nat * nat) :=
  owners 0 Ctor_init gridview.

(** The elements whose corners were resolved to the vertex at position
    [i], in order, one entry per corner. *)
Definition owners_of (i : nat) (tr : list (nat * nat)) : list nat :=
  (filter (λ p, p.1 = i) tr).*2.

(** *** The statements of the specification, for comparison *)

(** Spec 3, [global]: first-registered coordinate wins. *)
Definition first_registered_wins (gridview : list Entity) : Prop :=
  ∀ i v, _l_vertex (Root_ctor gridview) !! i = Some v →
         head (resolved_to i (registration gridview)) = Some (_global v).

(** Spec 3, identity: two raw coordinates denote the same vertex iff they
    are within the tolerance of each other. *)
Definition same_vertex_iff_close (gridview : list Entity) : Prop :=
  ∀ i j vi vj a b,
    registration gridview !! i = Some (vi, a) →
    registration gridview !! j = Some (vj, b) →
    vi = vj ↔ within_tolerance a b = true.

(** Spec 8, dedup idempotence: a merge only appends the element reference
    to the matched vertex. *)
Definition append_only (es : pointer) (i : nat) (l l' : list Vertex) : Prop :=
  l' = alter (λ v, mk_Vertex (_global v) (_entity_seed v ++ [es])) i l.




End Root.

Arguments Root {G} B.
Arguments Ctor {G} B.
Arguments Entity {G}.

End Tree.

(* ===================================================================== *)
(** ** evalview::Root  (src/dune/root.hpp)                                 *)
(* ===================================================================== *)

Module Evalview.

(** A vertex of an element: [v.index()] and [v.global()]. *)
Record Vertices : Type := mk_Vertices {
  index  : nat;
  global : LinaVector
}.

Section Root.
Context {G : Grid} {GP : Growth} {B : Type} {BX : Box B}.

(** An element: [EntitySeed(e)] and [e.vertices()]. *)
Record Entity : Type := mk_Entity {
  seed     : EntitySeed;
  vertices : list Vertices
}.

Record Root : Type := mk_Root {
  _bounding_box : B;
  _entities     : vector EntitySeed
}.

(** Line 80, the statement of the inner loop that compiles.  Line 78 calls
    the [std::map] member [_maping] as a function, which no overload
    accepts; the member is therefore left out of the state. *)
Definition vertex_step (r : Root) (v : Vertices) : Root :=
  mk_Root (append (_bounding_box r) (global v)) (_entities r).

(** Lines 72-82: the seed is pushed, then the vertices are visited.  Line 74
    also initialises [pos] from the [void] result of [push_back]; there is
    no such value, and nothing modelled here reads it. *)
Definition element_step (r : Root) (e : Entity) : Root :=
  fold_left vertex_step (vertices e)
            (mk_Root (_bounding_box r) (push_back (_entities r) (seed e))).

Definition Root_ctor (gridview : list Entity) : Root :=
  fold_left element_step gridview (mk_Root box_new vector_new).

End Root.

Arguments Root {G} B.
Arguments Entity {G}.

End Evalview.

(* ===================================================================== *)
(** ** Trajectory  (src/dune/test.cpp, lines 303-362)                      *)
(* ===================================================================== *)

Module Trajectory.

Record XT : Type := mk_XT { x : LinaVector; t : Real }.

(** The three data members; [data] is the [std::vector], [dq] the
    [std::deque]. *)
Record Trajectory : Type := mk_Trajectory {
  adepting : bool;
  data     : list XT;
  dq       : list XT
}.

(** [Trajectory() : adepting(false) {}] *)
Definition Trajectory_new : Trajectory := mk_Trajectory false [] [].

(** [preAdept]: the deque becomes a copy of the vector. *)
Definition preAdept (tr : Trajectory) : Trajectory :=
  mk_Trajectory true (data tr) (data tr).

(** [insert( const XT& xt )], lines 338-340. *)
Definition insert (tr : Trajectory) (xt : XT) : outcome Trajectory :=
  if negb (adepting tr) then Throw else Return tr.

(** [insert( const XT& xt, const iterator& it )], lines 342-345; the
    iterator is a position in [dq]. *)
Definition insert_at (tr : Trajectory) (xt : XT) (it : nat) : outcome Trajectory :=
  if negb (adepting tr) then Throw
  else Return (mk_Trajectory (adepting tr) (data tr) (take it (dq tr) ++ xt :: drop it (dq tr))).

(** [postAdept]: the vector becomes a copy of the deque, which is cleared. *)
Definition postAdept (tr : Trajectory) : Trajectory :=
  mk_Trajectory false (dq tr) [].

(** [push_back], lines 355-362. *)
Definition push_back (tr : Trajectory) (xt : XT) : Trajectory :=
  if adepting tr
  then mk_Trajectory (adepting tr) (data tr) (dq tr ++ [xt])
  else mk_Trajectory (adepting tr) (data tr ++ [xt]) (dq tr).

(** [vector_begin], [vector_end], [deque_begin], [deque_end], lines
    325-329; an iterator is a position in its container. *)
Definition vector_begin (tr : Trajectory) : outcome nat :=
  if adepting tr then Throw else Return 0.
Definition vector_end (tr : Trajectory) : outcome nat :=
  if adepting tr then Throw else Return (length (data tr)).
Definition deque_begin (tr : Trajectory) : outcome nat :=
  if negb (adepting tr) then Throw else Return 0.
Definition deque_end (tr : Trajectory) : outcome nat :=
  if negb (adepting tr) then Throw else Return (length (dq tr)).

(** *** writeVTK, lines 364-414 *)

(** What [writeVTK] hands to the writer: the points in insertion order
    ([InsertNextPoint] returns the position of the point), the cells given
    to [SetVerts], the cells given to [SetPolys]. *)
Record PolyData : Type := mk_PolyData {
  Points : list (Real * Real * Real);
  Verts  : list (list nat);
  Polys  : list (list nat)
}.

(** Line 374: the factor that scales the time axis. *)
Definition time_scale (front back : XT) : Real :=
  PrimFloat.div 1 (PrimFloat.abs (PrimFloat.sub (t front) (t back))).

(** [v(k)] on a short vector. *)
Definition component (v : LinaVector) (k : nat) : Real := default 0%float (v !! k).

(** The point inserted for the sample [a], lines 383-384 and 388-389. *)
Definition point_of (dim : nat) (T : Real) (a : XT) : option (Real * Real * Real) :=
  match dim with
  | 2 => Some (component (x a) 0, component (x a) 1, PrimFloat.mul T (t a))
  | 3 => Some (component (x a) 0, component (x a) 1, component (x a) 2)
  | _ => None
  end.

(** One turn of the loop of lines 375-399, for the samples [a] and [b] the
    iterator and its successor point to.  For a dimension other than 2 and
    3 the indices [pid] are read without having been written. *)
Definition segment (dim : nat) (T : Real) (pd : PolyData) (a b : XT) : outcome PolyData :=
  match point_of dim T a, point_of dim T b with
  | Some pa, Some pb =>
      let pid0 := length (Points pd) in
      let pid1 := S pid0 in
      Return (mk_PolyData (Points pd ++ [pa; pb])
                          (Verts pd ++ [[pid0]])
                          (Polys pd ++ [[pid0; pid1]]))
  | _, _ => Undefined
  end.

(** The loop of lines 375-399 over a vector that is not empty: from the
    first sample to the one before the last. *)
Fixpoint segments (dim : nat) (T : Real) (pd : PolyData) (l : list XT) : outcome PolyData :=
  match l with
  | a :: (b :: _) as l' =>
      match segment dim T pd a b with
      | Return pd' => segments dim T pd' l'
      | Throw => Throw
      | Undefined => Undefined
      end
  | _ => Return pd
  end.

(** [writeVTK]: the file name and the poly data given to the writer.
    [data.front()] and [data.end()-1] on an empty vector are undefined. *)
Definition writeVTK (dim : nat) (tr : Trajectory) (path : string)
  : outcome (string * PolyData) :=
  if adepting tr then Throw
  else
    match data tr, last (data tr) with
    | front :: _, Some back =>
        match segments dim (time_scale front back) (mk_PolyData [] [] []) (data tr) with
        | Return pd => Return (path, pd)
        | Throw => Throw
        | Undefined => Undefined
        end
    | _, _ => Undefined
    end.

(** The point [writeVTK] inserts for a sample when the dimension is 2 or
    3. *)
Definition point (dim : nat) (T : Real) (a : XT) : Real * Real * Real :=
  default (0, 0, 0)%float (point_of dim T a).

End Trajectory.

(* ===================================================================== *)
(** ** saveMesh  (src/dune/test.cpp, lines 274-301)                        *)
(* ===================================================================== *)

Module SaveMesh.

Section saveMesh.
Context {B : Type}.
(** [NUM_CORNERS(dim)], a macro defined outside the sources. *)
Variable NUM_CORNERS : nat.
(** What a default-constructed [ShortVector] holds. *)
Variable ShortVector_new : LinaVector.
(** The default-constructed [BoundingBox<BT, dim>] and its [include]. *)
Variable box_new : B.
Variable include : B → LinaVector → B.

(** [CubeMesh<BT, dim>]: the cubes pushed, each the array of corners it
    was built from, and the two members the function assigns. *)
Record CubeMesh : Type := mk_CubeMesh {
  cubes          : list (list LinaVector);
  boundingbox    : B;
  choleskyFactor : string
}.

(** Lines 286-287, for the element with the geometry corners [geo]: the
    corner [c] of the geometry is written to the entry
    [NUM_CORNERS - c - 1] of the array, then the entry [c] of the array is
    included in the box. *)
Definition corner_turn (geo : list LinaVector) (st : list LinaVector * B) (c : nat)
  : outcome (list LinaVector * B) :=
  match geo !! c with
  | None => Undefined
  | Some g =>
      let corner := <[NUM_CORNERS - c - 1 := g]> st.1 in
      match corner !! c with
      | None => Undefined
      | Some x => Return (corner, include st.2 x)
      end
  end.

Fixpoint corner_loop (geo : list LinaVector) (cs : list nat) (st : list LinaVector * B)
  : outcome (list LinaVector * B) :=
  match cs with
  | [] => Return st
  | c :: cs' =>
      match corner_turn geo st c with
      | Return st' => corner_loop geo cs' st'
      | Throw => Throw
      | Undefined => Undefined
      end
  end.

(** Lines 283-291: a fresh array, the loop over the corners, the cube. *)
Definition element_turn (st : list (list LinaVector) * B) (geo : list LinaVector)
  : outcome (list (list LinaVector) * B) :=
  match corner_loop geo (seq 0 NUM_CORNERS)
                    (replicate NUM_CORNERS ShortVector_new, st.2) with
  | Return (corner, box) => Return (st.1 ++ [corner], box)
  | Throw => Throw
  | Undefined => Undefined
  end.

Fixpoint element_loop (gridView : list (list LinaVector))
    (st : list (list LinaVector) * B) : outcome (list (list LinaVector) * B) :=
  match gridView with
  | [] => Return st
  | geo :: gridView' =>
      match element_turn st geo with
      | Return st' => element_loop gridView' st'
      | Throw => Throw
      | Undefined => Undefined
      end
  end.

(** [saveMesh]: the path and the mesh handed to [hxgeomatch::save].  An
    element is given by the corners of its geometry. *)
Definition saveMesh (gridView : list (list LinaVector)) (path : string)
  : outcome (string * CubeMesh) :=
  match element_loop gridView ([], box_new) with
  | Return (cs, box) => Return (path, mk_CubeMesh cs box EmptyString)
  | Throw => Throw
  | Undefined => Undefined
  end.

(** What turn [c] hands to [include]. *)
Definition included_at (geo : list LinaVector) (c : nat) : LinaVector :=
  if decide (NUM_CORNERS ≤ 2 * c + 1)
  then default ShortVector_new (geo !! (NUM_CORNERS - c - 1))
  else ShortVector_new.

Definition included (geo : list LinaVector) : list LinaVector :=
  included_at geo <$> seq 0 NUM_CORNERS.

End saveMesh.

Arguments CubeMesh B : clear implicits.
Arguments mk_CubeMesh {B} _ _ _.
Arguments cubes {B} _.
Arguments boundingbox {B} _.
Arguments choleskyFactor {B} _.

End SaveMesh.

(* ===================================================================== *)
(** ** FemTest::rhs and FemTest::integrate  (src/dune/test.cpp, 598-652)   *)
(* ===================================================================== *)

Module FemTest.

(** [FemLocalEvalOperator::Result], lines 118-129. *)
Record Result : Type := mk_Result {
  x  : LinaVector;
  u  : Real;
  du : LinaVector
}.

(** [s * v] and [a + b] on short vectors. *)
Definition scale (s : Real) (v : LinaVector) : LinaVector := PrimFloat.mul s <$> v.
Definition vadd (a b : LinaVector) : LinaVector := zip_with PrimFloat.add a b.

#[local] Set Warnings "-inexact-float".

(** Lines 619-620. *)
Definition dt : Real := 0.004%float.
Definition fr : Real := 0.02%float.

(** The bound of the loop of line 632, [200. + .1*dt]. *)
Definition t_end : Real := (200 + 0.1 * dt)%float.

(** The variables of [integrate] that the loop updates. *)
Record State : Type := mk_State {
  t    : Real;
  xo   : LinaVector;
  xn   : LinaVector;
  vo   : LinaVector;
  vn   : LinaVector;
  traj : Trajectory.Trajectory
}.

(** Lines 617-626: [xo] and [xn] have every component at .8, [vo] and
    [vn] every component at .04 but the first, which is set to 0. *)
Definition State_init : State :=
  mk_State 0%float
           (replicate dimw 0.8%float) (replicate dimw 0.8%float)
           (<[0 := 0%float]> (replicate dimw 0.04%float))
           (<[0 := 0%float]> (replicate dimw 0.04%float))
           Trajectory.Trajectory_new.

(** How the loop of line 632 ends. *)
Inductive ending : Type := Completed | Thrown | OutOfFuel.

Section integrate.
(** [pl.eval(x, field)] of the point locator, a class defined outside the
    sources: its [found] flag and its [res]. *)
Variable pl_eval : LinaVector → bool * Result.

(** [rhs], lines 605-610 (the overload of lines 598-603 converts its
    argument and calls this one). *)
Definition rhs (xv : LinaVector) : outcome Result :=
  let res := pl_eval xv in
  if negb res.1 then Throw else Return res.2.

(** The body of the loop, lines 633-643, without the increment of [t]. *)
Definition turn (s : State) : outcome State :=
  match rhs (xo s) with
  | Return du0 =>
      let vo' := vsub (scale (1 - fr * dt) (vn s)) (scale (0.1 * dt) (du du0)) in
      let xo' := vadd (xn s) (scale dt (vn s)) in
      match rhs xo' with
      | Return du1 =>
          let vn' := vsub (scale (1 - 0.5 * fr * dt) (vn s))
                          (scale (0.5 * 0.1 * dt) (vadd (du du0) (du du1))) in
          let xn' := vadd (xn s) (scale (0.5 * dt) (vadd vo' vn')) in
          Return (mk_State (t s) xo' xn' vo' vn'
                           (Trajectory.push_back (traj s) (Trajectory.mk_XT xn' (t s))))
      | Throw => Throw
      | Undefined => Undefined
      end
  | Throw => Throw
  | Undefined => Undefined
  end%float.

(** The loop of line 632.  A turn that fails has not touched [traj]. *)
Fixpoint loop (fuel : nat) (s : State) : ending * Trajectory.Trajectory :=
  match fuel with
  | 0 => (OutOfFuel, traj s)
  | S fuel' =>
      if PrimFloat.ltb (t s) t_end then
        match turn s with
        | Return s' =>
            loop fuel' (mk_State (PrimFloat.add (t s') dt)
                                 (xo s') (xn s') (vo s') (vn s') (traj s'))
        | _ => (Thrown, traj s)
        end
      else (Completed, traj s)
  end.

(** [integrate], lines 612-652, called while the exception [handled] is
    being handled, or none.  The [throw;] of [rhs] rethrows that exception,
    which [catch (...)] then swallows; with none, it terminates the program
    before any handler is looked for.  [None]: the fuel did not suffice. *)
Definition integrate {E : Type} (handled : option E) (fuel : nat)
  : option (completion E (string * Trajectory.PolyData)) :=
  match loop fuel State_init with
  | (OutOfFuel, _) => None
  | (Completed, tr) => Some (unwind handled (Trajectory.writeVTK dimw tr "traj.vtp"))
  | (Thrown, tr) =>
      match handled with
      | None => Some Terminate
      | Some _ => Some (unwind handled (Trajectory.writeVTK dimw tr "traj.vtp"))
      end
  end.

End integrate.

(** The number of turns the loop of line 632 takes from the time [t0];
    it depends on nothing but the time. *)
Fixpoint ticks (fuel : nat) (t0 : Real) : option nat :=
  match fuel with
  | 0 => None
  | S fuel' =>
      if PrimFloat.ltb t0 t_end then S <$> ticks fuel' (PrimFloat.add t0 dt)
      else Some 0
  end.

End FemTest.

(* ===================================================================== *)
(** ** Concrete grids: the unit square and a strip of two squares         *)
(* ===================================================================== *)

Module Meshes.
Import Tree.

(** Element 0 has the corners (0,0), (1,0), (0,1); element 1 has the
    corners (1,0), (0,1), (1,1).  [local] maps a world coordinate to the
    coordinates of the reference triangle, [checkInside] is the inclusive
    test of the reference triangle. *)
Definition local (ep : nat) (xg : LinaVector) : LinaVector :=
  match ep, xg with
  | 0, [x; y] => [x; y]
  | 1, [x; y] => [PrimFloat.sub 1 x; PrimFloat.sub (PrimFloat.add x y) 1]
  | _, _ => []
  end%float.

Definition checkInside (xl : LinaVector) : bool :=
  match xl with
  | [a; b] => PrimFloat.leb 0 a && PrimFloat.leb 0 b && PrimFloat.leb (PrimFloat.add a b) 1
  | _ => false
  end%float.

Definition grid : Grid :=
  {| EntitySeed := nat;
     EntityPointer := nat;
     entityPointer := fun s => s;
     checkInside_local := fun ep xg => checkInside (local ep xg) |}.

Definition T0 : Entity (G := grid) :=
  mk_Entity (G := grid) 0 [[0; 0]; [1; 0]; [0; 1]]%float.
Definition T1 : Entity (G := grid) :=
  mk_Entity (G := grid) 1 [[1; 0]; [0; 1]; [1; 1]]%float.

(** Element 1 as delivered by a grid whose geometry computes the corners
    element by element: the shared corner (1,0) comes out one unit in the
    last place off, 1 + 2^-52. *)
Definition T1' : Entity (G := grid) :=
  mk_Entity (G := grid) 1 [[0x1.0000000000001p0; 0]; [0; 1]; [1; 1]]%float.

(** Two thin triangles over the segment from (0,0) to (18 eps, 0), with the
    apex (0,1); they share the edge from (9 eps, 0) to the apex. *)
Definition S0 : Entity (G := grid) :=
  mk_Entity (G := grid) 0 [[0; 0]; [0x9p-52; 0]; [0; 1]]%float.
Definition S1 : Entity (G := grid) :=
  mk_Entity (G := grid) 1 [[0x9p-52; 0]; [0x12p-52; 0]; [0; 1]]%float.

(** The tree of a mesh that fits one leaf: the root is the leaf and holds
    every vertex; a coordinate outside its box has no node. *)
Definition leaf (c : Ctor (G := grid) BoundingBox) : Node BoundingBox :=
  mk_Node (_bounding_box (this c)) (_l_vertex c).

Definition findNode (c : Ctor (G := grid) BoundingBox) (x : LinaVector)
  : option (Node BoundingBox) :=
  if BoundingBox_contains (_bounding_box (this c)) x then Some (leaf c) else None.







(** Observations that tell coordinates apart by evaluation. *)
Definition first_is_one (o : option LinaVector) : bool :=
  match o with
  | Some (a :: _) => PrimFloat.eqb a 1%float
  | _ => false
  end.

Definition second_starts_with_one (gs : list LinaVector) : bool :=
  first_is_one (gs !! 1).

End Meshes.

(* ===================================================================== *)
(** * Properties                                                           *)
(* ===================================================================== *)

(** Closes a goal [H : a = b |- _] between values that an observation [f]
    with values in [bool] tells apart by evaluation. *)
Ltac tell_apart H f :=
  apply (f_equal f) in H; vm_compute in H; discriminate H.

(** ** std::vector *)

Section VectorFacts.
Context {GP : Growth} {A : Type}.
Implicit Types (v : vector A) (p : pointer).

(** A pointer taken right after a [push_back] reads the element pushed. *)
Lemma deref_back_ptr v (a : A) :
  deref (push_back v a) (back_ptr (push_back v a)) = Some a.
Proof.
  unfold deref, back_ptr, push_back, size.
  destruct (length (elems v) <? capacity v); simpl;
    rewrite Nat.eqb_refl, length_app; simpl;
    rewrite lookup_app_r by lia;
    by replace (Nat.pred (length (elems v) + 1) - length (elems v)) with 0 by lia.
Qed.

(** A [push_back] that finds the vector full invalidates every pointer
    taken before. *)
Lemma push_back_full_invalidates v (a : A) p :
  capacity v ≤ size v → block p ≤ buffer v → deref (push_back v a) p = None.
Proof.
  intros Hfull Hp. unfold deref, push_back.
  destruct (size v <? capacity v) eqn:E.
  - apply Nat.ltb_lt in E. lia.
  - simpl. destruct (block p =? S (buffer v)) eqn:E'; [|done].
    apply Nat.eqb_eq in E'. lia.
Qed.

End VectorFacts.

(** ** The registration pass of tree::Root *)

Section Registration.
Context {G : Grid} {GP : Growth} {B : Type} {BX : Box B}.
Implicit Types (l : list Tree.Vertex) (gl : LinaVector) (c : Tree.Ctor B).
Import Tree.

Lemma scan_app l1 l2 k gl _v :
  scan (l1 ++ l2) k gl _v = scan l2 (k + length l1) gl (scan l1 k gl _v).
Proof.
  revert k _v. induction l1 as [|vl l1 IH]; intros k _v; simpl.
  - by rewrite Nat.add_0_r.
  - rewrite IH. f_equal. lia.
Qed.

(** The vertex pushed last is the one the scan looks at last. *)
Lemma find_vertex_snoc l vl gl :
  find_vertex (l ++ [vl]) gl =
  if within_tolerance (_global vl) gl then Some (length l) else find_vertex l gl.
Proof. unfold find_vertex. by rewrite scan_app. Qed.

Lemma find_vertex_None l gl :
  find_vertex l gl = None ↔
  ∀ j v, l !! j = Some v → within_tolerance (_global v) gl = false.
Proof.
  induction l as [|vl l IH] using rev_ind.
  - split; [intros _ j v Hj; by rewrite lookup_nil in Hj | done].
  - rewrite find_vertex_snoc.
    destruct (within_tolerance (_global vl) gl) eqn:E.
    + split; [done|]. intros Hall.
      specialize (Hall (length l) vl). rewrite list_lookup_middle in Hall by done.
      rewrite Hall in E; [done|done].
    + rewrite IH. split; intros Hall j v Hj.
      * destruct (decide (j < length l)) as [Hlt|Hge].
        -- rewrite lookup_app_l in Hj by done. eauto.
        -- rewrite lookup_app_r in Hj by lia.
           destruct (j - length l) as [|n]; simpl in Hj; [|by rewrite lookup_nil in Hj].
           by simplify_eq.
      * apply (Hall j). apply lookup_app_l_Some. done.
Qed.

Lemma find_vertex_Some l gl i :
  find_vertex l gl = Some i ↔
  ∃ v, l !! i = Some v ∧ within_tolerance (_global v) gl = true ∧
       ∀ j v', i < j → l !! j = Some v' → within_tolerance (_global v') gl = false.
Proof.
  revert i. induction l as [|vl l IH] using rev_ind; intros i.
  - split; [done|]. intros (v & Hv & _). by rewrite lookup_nil in Hv.
  - rewrite find_vertex_snoc.
    destruct (within_tolerance (_global vl) gl) eqn:E.
    + split.
      * intros [= <-]. exists vl. rewrite list_lookup_middle by done.
        split_and!; [done|done|]. intros j v' Hj Hv'.
        apply lookup_lt_Some in Hv'. rewrite length_app in Hv'. simpl in Hv'. lia.
      * intros (v & Hv & Hin & Hlast).
        destruct (decide (i = length l)) as [->|Hne]; [done|].
        assert (i < length l) as Hlt.
        { apply lookup_lt_Some in Hv. rewrite length_app in Hv. simpl in Hv. lia. }
        specialize (Hlast (length l) vl Hlt).
        rewrite list_lookup_middle in Hlast by done.
        rewrite Hlast in E; done.
    + rewrite IH. split.
      * intros (v & Hv & Hin & Hlast). exists v.
        split_and!; [by apply lookup_app_l_Some|done|].
        intros j v' Hj Hv'.
        destruct (decide (j < length l)) as [Hlt|Hge].
        -- rewrite lookup_app_l in Hv' by done. eauto.
        -- rewrite lookup_app_r in Hv' by lia.
           destruct (j - length l) as [|n]; simpl in Hv'; [|by rewrite lookup_nil in Hv'].
           by simplify_eq.
      * intros (v & Hv & Hin & Hlast).
        assert (i < length l) as Hlt.
        { destruct (decide (i < length l)) as [|Hge]; [done|].
          rewrite lookup_app_r in Hv by lia.
          destruct (i - length l) as [|n]; simpl in Hv; [|by rewrite lookup_nil in Hv].
          simplify_eq. rewrite Hin in E. done. }
        rewrite lookup_app_l in Hv by done.
        exists v. split_and!; [done|done|].
        intros j v' Hj Hv'. apply (Hlast j v' Hj). by apply lookup_app_l_Some.
Qed.

Lemma find_vertex_lt l gl i : find_vertex l gl = Some i → i < length l.
Proof.
  intros (v & Hv & _)%find_vertex_Some. by apply lookup_lt_Some in Hv.
Qed.

Lemma resolved_le l gl : resolved l gl ≤ length l.
Proof.
  unfold resolved. destruct (find_vertex l gl) eqn:E; [|done].
  apply find_vertex_lt in E. lia.
Qed.

(** The vertex list after one corner, in terms of [resolved]. *)
Lemma corner_step_vertices c gl :
  _l_vertex (corner_step c gl) =
  alter (store gl (back_ptr (_entities (this c)))) (resolved (_l_vertex c) gl)
        (match find_vertex (_l_vertex c) gl with
         | Some _ => _l_vertex c
         | None => _l_vertex c ++ [Vertex_new]
         end).
Proof.
  unfold corner_step, resolved. by destruct (find_vertex (_l_vertex c) gl).
Qed.

(** The corner just registered is the stored coordinate of the vertex it
    was resolved to; every other vertex keeps its coordinate. *)
Lemma corner_step_global c gl j v' :
  _l_vertex (corner_step c gl) !! j = Some v' →
  if decide (j = resolved (_l_vertex c) gl) then _global v' = gl
  else ∃ v, _l_vertex c !! j = Some v ∧ _global v' = _global v.
Proof.
  rewrite corner_step_vertices. unfold resolved.
  destruct (find_vertex (_l_vertex c) gl) as [i|] eqn:E.
  - rewrite list_lookup_alter. case_decide as Hj; subst.
    + rewrite decide_True by done.
      destruct (_l_vertex c !! j) eqn:Ev; simpl; [|done]. by intros [= <-].
    + rewrite decide_False by done. eauto.
  - rewrite list_lookup_alter. case_decide as Hj; subst.
    + rewrite decide_True by done. rewrite list_lookup_middle by done.
      simpl. by intros [= <-].
    + rewrite decide_False by done. intros Hj'.
      assert (j < length (_l_vertex c)) as Hlt.
      { apply lookup_lt_Some in Hj'. rewrite length_app in Hj'. simpl in Hj'. lia. }
      rewrite lookup_app_l in Hj' by done. eauto.
Qed.

End Registration.

Section RegistrationPass.
Context {G : Grid} {GP : Growth} {B : Type} {BX : Box B}.
Implicit Types (l : list Tree.Vertex) (gl : LinaVector) (c : Tree.Ctor B).
Implicit Types (tr : list (nat * LinaVector)).
Import Tree.

Lemma resolved_to_snoc i tr r gl :
  resolved_to i (tr ++ [(r, gl)]) =
  resolved_to i tr ++ (if decide (r = i) then [gl] else []).
Proof.
  unfold resolved_to. rewrite filter_app, fmap_app. f_equal.
  rewrite filter_cons, filter_nil. simpl. by case_decide.
Qed.

Lemma stores_last_corner_step c tr gl :
  stores_last c tr →
  stores_last (corner_step c gl) (tr ++ [(resolved (_l_vertex c) gl, gl)]).
Proof.
  intros Hinv i v' Hi. apply corner_step_global in Hi.
  rewrite resolved_to_snoc. case_decide as Hj.
  - subst i. rewrite decide_True by done. by rewrite last_snoc, Hi.
  - destruct Hi as (v & Hv & ->). rewrite decide_False by done.
    rewrite app_nil_r. by apply Hinv.
Qed.

Lemma stores_last_corners cs c tr :
  stores_last c tr →
  stores_last (fold_left corner_step cs c) (tr ++ corner_trace c cs).
Proof.
  revert c tr. induction cs as [|gl cs IH]; intros c tr Hinv; simpl.
  - by rewrite app_nil_r.
  - rewrite (cons_middle _ tr), app_assoc. by apply IH, stores_last_corner_step.
Qed.

Lemma stores_last_elements gridview c tr :
  stores_last c tr →
  stores_last (fold_left element_step gridview c) (tr ++ trace c gridview).
Proof.
  revert c tr. induction gridview as [|e gridview IH]; intros c tr Hinv; simpl.
  - by rewrite app_nil_r.
  - rewrite app_assoc. apply IH. unfold element_step.
    by apply stores_last_corners.
Qed.

(** A merge leaves the coordinates of the store as they were only if the
    store is written as [append_only] says. *)
Lemma append_only_globals es i l l' :
  append_only es i l l' → _global <$> l' = _global <$> l.
Proof.
  intros ->. apply list_eq. intros j. rewrite !list_lookup_fmap, list_lookup_alter.
  case_decide; [subst|done]. by destruct (l !! j).
Qed.

End RegistrationPass.

Section RegistrationClaims.
Context {G : Grid} {GP : Growth} {B : Type} {BX : Box B}.
Implicit Types (l : list Tree.Vertex) (gl : LinaVector) (c : Tree.Ctor B).
Import Tree.

(** C2, as the code has it: after the registration pass the coordinate
    [_global] of every vertex is the corner coordinate that was resolved to
    that vertex last -- a later corner merged into an existing vertex
    replaces the stored coordinate (line 117 runs for every corner). *)
Theorem global_is_last_registered (gridview : list Entity) (i : nat) (v : Vertex) :
  _l_vertex (Root_ctor gridview) !! i = Some v →
  last (resolved_to i (registration gridview)) = Some (_global v).
Proof.
  intros Hv. unfold Root_ctor in Hv. unfold registration.
  pose proof (stores_last_elements gridview Ctor_init []) as Hinv.
  simpl in Hinv. apply Hinv; [|done].
  intros j w Hj. unfold Ctor_init in Hj. simpl in Hj. by rewrite lookup_nil in Hj.
Qed.

(** C4, as the code has it: a corner coordinate is resolved to the vertex at
    position [i] of the list exactly when the stored coordinate of that
    vertex is within the tolerance of the corner and no vertex later in the
    list is; it is resolved to a new vertex exactly when no stored
    coordinate is within the tolerance.  The comparison is with the stored
    coordinates, not with the raw corners seen before. *)
Theorem resolved_by_stored_coordinate l gl :
  (∀ i, find_vertex l gl = Some i ↔
        ∃ v, l !! i = Some v ∧ within_tolerance (_global v) gl = true ∧
             ∀ j v', i < j → l !! j = Some v' → within_tolerance (_global v') gl = false)
  ∧ (find_vertex l gl = None ↔
     ∀ j v, l !! j = Some v → within_tolerance (_global v) gl = false)
  ∧ (∀ c, _l_vertex c = l →
          length (_l_vertex (corner_step c gl)) =
          match find_vertex l gl with
          | Some _ => length l
          | None => S (length l)
          end).
Proof.
  split_and!.
  - intros i. apply find_vertex_Some.
  - apply find_vertex_None.
  - intros c <-. rewrite corner_step_vertices, length_alter.
    destruct (find_vertex (_l_vertex c) gl); [done|].
    rewrite length_app. simpl. lia.
Qed.

(** C5, as the code has it: registering a coordinate within the tolerance
    of a registered vertex leaves the number of vertices, the seed container
    and the bounding box as they are; the matched vertex (the last one within
    the tolerance) gets the element reference appended and its coordinate
    replaced by the registered one; the other vertices are untouched. *)
Theorem merge_changes_matched_vertex c gl :
  (∃ j v, _l_vertex c !! j = Some v ∧ within_tolerance (_global v) gl = true) →
  length (_l_vertex (corner_step c gl)) = length (_l_vertex c)
  ∧ this (corner_step c gl) = this c
  ∧ ∃ i v, _l_vertex c !! i = Some v
           ∧ within_tolerance (_global v) gl = true
           ∧ (∀ j v', i < j → _l_vertex c !! j = Some v' →
                      within_tolerance (_global v') gl = false)
           ∧ _l_vertex (corner_step c gl) !! i =
               Some (mk_Vertex gl (_entity_seed v ++ [back_ptr (_entities (this c))]))
           ∧ ∀ j, j ≠ i → _l_vertex (corner_step c gl) !! j = _l_vertex c !! j.
Proof.
  intros (j0 & v0 & Hj0 & Hin0).
  destruct (find_vertex (_l_vertex c) gl) as [i|] eqn:E.
  2: { rewrite find_vertex_None in E. rewrite (E _ _ Hj0) in Hin0. done. }
  pose proof E as (v & Hv & Hin & Hlast)%find_vertex_Some.
  unfold corner_step. rewrite E. simpl. split_and!.
  - by rewrite length_alter.
  - done.
  - exists i, v. split_and!; [done|done|done| |].
    + rewrite list_lookup_alter, decide_True by done. by rewrite Hv.
    + intros j Hj. by rewrite list_lookup_alter, decide_False.
Qed.

End RegistrationClaims.

(** ** The stored seed pointers *)

Section SeedPointers.
Context {G : Grid} {GP : Growth} {B : Type} {BX : Box B}.
Implicit Types (c : Tree.Ctor B) (gl : LinaVector) (p : pointer).
Import Tree.

Lemma corner_step_entities c gl :
  _entities (this (corner_step c gl)) = _entities (this c).
Proof. unfold corner_step. by destruct (find_vertex (_l_vertex c) gl). Qed.

Lemma corners_entities cs c :
  _entities (this (fold_left corner_step cs c)) = _entities (this c).
Proof.
  revert c. induction cs as [|gl cs IH]; intros c; simpl; [done|].
  by rewrite IH, corner_step_entities.
Qed.

Lemma element_step_entities c (e : Entity) :
  _entities (this (element_step c e)) = push_back (_entities (this c)) (seed e).
Proof. unfold element_step. by rewrite corners_entities. Qed.

Lemma buffer_push_back {A : Type} (v : vector A) (a : A) :
  buffer v ≤ buffer (push_back v a).
Proof. unfold push_back. destruct (size v <? capacity v); simpl; lia. Qed.

(** A pointer found in the store after a corner is the one just taken or
    was in the store before. *)
Lemma corner_step_pointers c gl (v : Vertex) p :
  v ∈ _l_vertex (corner_step c gl) → p ∈ _entity_seed v →
  p = back_ptr (_entities (this c))
  ∨ ∃ v0, v0 ∈ _l_vertex c ∧ p ∈ _entity_seed v0.
Proof.
  rewrite corner_step_vertices.
  set (l0 := match find_vertex (_l_vertex c) gl with
             | Some _ => _l_vertex c
             | None => _l_vertex c ++ [Vertex_new]
             end).
  assert (∀ w, w ∈ l0 → p ∈ _entity_seed w →
               ∃ v0, v0 ∈ _l_vertex c ∧ p ∈ _entity_seed v0) as Hold.
  { intros w Hw Hp. subst l0. destruct (find_vertex (_l_vertex c) gl); [by eauto|].
    apply elem_of_app in Hw as [Hw|Hw]; [by eauto|].
    apply list_elem_of_singleton in Hw. subst w. simpl in Hp.
    by apply not_elem_of_nil in Hp. }
  intros (j & Hj)%list_elem_of_lookup Hp.
  rewrite list_lookup_alter in Hj. case_decide as Hr.
  - destruct (l0 !! resolved (_l_vertex c) gl) as [w|] eqn:Ew; simplify_eq/=.
    apply elem_of_app in Hp as [Hp|Hp].
    + right. apply (Hold w); [|done]. apply list_elem_of_lookup. eauto.
    + left. by apply list_elem_of_singleton in Hp.
  - right. apply (Hold v); [|done]. apply list_elem_of_lookup. eauto.
Qed.

Lemma pointers_not_ahead_corner_step c gl :
  pointers_not_ahead c → pointers_not_ahead (corner_step c gl).
Proof.
  intros Hc v p Hv Hp. rewrite corner_step_entities.
  destruct (corner_step_pointers c gl v p Hv Hp) as [->|(v0 & Hv0 & Hp0)].
  - done.
  - by apply (Hc v0).
Qed.

Lemma pointers_not_ahead_element_step c (e : Entity) :
  pointers_not_ahead c → pointers_not_ahead (element_step c e).
Proof.
  intros Hc. unfold element_step.
  assert (pointers_not_ahead (enter c e)) as Henter.
  { intros v p Hv Hp. simpl. etrans; [by apply (Hc v)|]. apply buffer_push_back. }
  revert Henter. generalize (enter c e). clear c Hc.
  induction (corners e) as [|gl cs IH]; intros c Hc; simpl; [done|].
  by apply IH, pointers_not_ahead_corner_step.
Qed.

Lemma pointers_not_ahead_Root_ctor (gridview : list Entity) :
  pointers_not_ahead (Root_ctor gridview).
Proof.
  unfold Root_ctor.
  assert (pointers_not_ahead Ctor_init) as Hinit.
  { intros v p Hv. by apply not_elem_of_nil in Hv. }
  revert Hinit. generalize Ctor_init.
  induction gridview as [|e gridview IH]; intros c Hc; simpl; [done|].
  by apply IH, pointers_not_ahead_element_step.
Qed.

(** Whatever the growth policy: when the constructor enters an element and
    finds [_entities] full, every pointer stored in a vertex so far is left
    dangling. *)
Lemma full_vector_invalidates_seeds (gridview : list Entity) (e : Entity)
    (v : Vertex) p :
  let c := Root_ctor gridview in
  capacity (_entities (this c)) ≤ size (_entities (this c)) →
  v ∈ _l_vertex c → p ∈ _entity_seed v →
  deref (_entities (this (element_step c e))) p = None.
Proof.
  intros c Hfull Hv Hp. rewrite element_step_entities.
  apply push_back_full_invalidates; [done|].
  by apply (pointers_not_ahead_Root_ctor gridview v).
Qed.

End SeedPointers.

(** ** Point location *)

Section PointLocation.
Context {G : Grid} {GP : Growth} {B : Type} {BX : Box B}.
Implicit Types (ents : vector EntitySeed) (x : LinaVector) (l : list pointer).
Import Tree.

Lemma scan_seeds_Throw ents x l :
  scan_seeds ents x l = Throw ↔ Forall (rejected ents x) l.
Proof.
  induction l as [|es l IH]; simpl.
  - split; [constructor|done].
  - destruct (deref ents es) as [s|] eqn:Es.
    + destruct (checkInside_local (entityPointer s) x) eqn:Ein.
      * split; [done|]. intros [(s' & Hs' & Hout) _]%Forall_cons. congruence.
      * rewrite IH. split.
        -- intros Hl. constructor; [by exists s|done].
        -- by intros [_ Hl]%Forall_cons.
    + split; [done|]. intros [(s' & Hs' & _) _]%Forall_cons. congruence.
Qed.

Lemma scan_seeds_Return ents x l ep :
  scan_seeds ents x l = Return ep ↔
  ∃ l1 es l2 s, l = l1 ++ es :: l2
                ∧ Forall (rejected ents x) l1
                ∧ deref ents es = Some s
                ∧ ep = entityPointer s
                ∧ checkInside_local ep x = true.
Proof.
  induction l as [|es0 l IH]; simpl.
  - split; [done|]. intros (l1 & es & l2 & s & Hl & _). by destruct l1.
  - destruct (deref ents es0) as [s0|] eqn:Es.
    + destruct (checkInside_local (entityPointer s0) x) eqn:Ein.
      * split.
        -- intros [= <-]. exists [], es0, l, s0. by split_and!.
        -- intros (l1 & es & l2 & s & Hl & Hrej & Hs & -> & Hin).
           destruct l1 as [|e l1]; simplify_eq/=; [done|].
           apply Forall_cons in Hrej as [(s' & Hs' & Hout) _]. congruence.
      * rewrite IH. split.
        -- intros (l1 & es & l2 & s & -> & Hrej & Hs & -> & Hin).
           exists (es0 :: l1), es, l2, s. split_and!; try done.
           constructor; [by exists s0|done].
        -- intros (l1 & es & l2 & s & Hl & Hrej & Hs & -> & Hin).
           destruct l1 as [|e l1]; simplify_eq/=; [congruence|].
           apply Forall_cons in Hrej as [_ Hrej].
           exists l1, es, l2, s. by split_and!.
    + split; [done|]. intros (l1 & es & l2 & s & Hl & Hrej & Hs & _).
      destruct l1 as [|e l1]; simplify_eq/=.
      apply Forall_cons in Hrej as [(s' & Hs' & _) _]. congruence.
Qed.

(** When every candidate is rejected the function leaves through line 178,
    a throw-expression without operand. *)
Lemma findEntity_Throw (findNode : LinaVector → option (Node B)) (root : Root B) x
    (node : Node B) (v : Vertex) :
  findNode x = Some node → _vertex node !! 0 = Some v →
  Forall (rejected (_entities root) x) (_entity_seed v) →
  findEntity findNode root x = Throw.
Proof.
  intros Hn Hv Hrej. unfold findEntity. rewrite Hn, Hv. by apply scan_seeds_Throw.
Qed.


End PointLocation.

(** ** Statistics, copy construction *)

Section RootObject.
Context {G : Grid} {B : Type} {BX : Box B}.
Import Tree.

(** C6, as the code has it: the four averages are unguarded IEEE divisions
    of the accumulated sum by the counter.  For an empty tree (counters and
    sums all zero) each of them is 0/0, a NaN and not 0; the division itself
    is total, it does not fault. *)
Theorem averages_of_empty_tree (Node_fillTreeStats : TreeStats → TreeStats)
    (root : Root B) (ts : TreeStats) :
  numNodes (Node_fillTreeStats ts) = 0%Z →
  numLeafs (Node_fillTreeStats ts) = 0%Z →
  aveLevel (Node_fillTreeStats ts) = 0%float →
  aveLeafLevel (Node_fillTreeStats ts) = 0%float →
  aveVertices (Node_fillTreeStats ts) = 0%float →
  aveEntitiesPerLeaf (Node_fillTreeStats ts) = 0%float →
  PrimFloat.is_nan (aveLevel (fillTreeStats Node_fillTreeStats root ts)) = true
  ∧ PrimFloat.is_nan (aveLeafLevel (fillTreeStats Node_fillTreeStats root ts)) = true
  ∧ PrimFloat.is_nan (aveVertices (fillTreeStats Node_fillTreeStats root ts)) = true
  ∧ PrimFloat.is_nan (aveEntitiesPerLeaf (fillTreeStats Node_fillTreeStats root ts)) = true.
Proof.
  intros Hn Hl H1 H2 H3 H4. unfold fillTreeStats. simpl.
  rewrite Hn, Hl, H1, H2, H3, H4. by vm_compute.
Qed.

(** C9: the copy constructor copies nothing.  Whatever the source is, the
    new object has no entity seed, no vertex and a fresh bounding box. *)
Theorem Root_copy_copies_nothing (root root' : Root B) :
  Root_copy root = Root_copy root'
  ∧ elems (_entities (Root_copy root)) = []
  ∧ _vertex (Root_copy root) = []
  ∧ _bounding_box (Root_copy root) = box_new.
Proof. by split_and!. Qed.

End RootObject.

(** ** The bounding box of the two constructors *)

Section BoundingBoxLog.
Context {G : Grid} {GP : Growth}.
Import Tree.

(** In [tree::Root] a corner that is merged into a registered vertex does
    not reach [append]: the box is the one from before the corner. *)
Lemma tree_merge_skips_append {B : Type} {BX : Box B} (c : Ctor B) gl i :
  find_vertex (_l_vertex c) gl = Some i →
  _bounding_box (this (corner_step c gl)) = _bounding_box (this c).
Proof. intros E. unfold corner_step. by rewrite E. Qed.

(** [tree::Root] calls [append] once for each vertex it creates, however
    many corners the elements have. *)
Lemma tree_appends_once_per_vertex (gridview : list Entity) :
  length (_bounding_box (this (Root_ctor (B := list LinaVector) gridview)))
  = length (_l_vertex (Root_ctor (B := list LinaVector) gridview)).
Proof.
  unfold Root_ctor.
  assert (length (_bounding_box (this (Ctor_init (B := list LinaVector))))
          = length (_l_vertex (Ctor_init (B := list LinaVector)))) as Hinit by done.
  revert Hinit. generalize (Ctor_init (B := list LinaVector)).
  induction gridview as [|e gridview IH]; intros c Hc; simpl; [done|].
  apply IH. unfold element_step.
  assert (length (_bounding_box (this (enter c e))) = length (_l_vertex (enter c e)))
    as Henter by done.
  revert Henter. generalize (enter c e). clear c Hc.
  induction (corners e) as [|gl cs IHcs]; intros c Hc; simpl; [done|].
  apply IHcs. unfold corner_step.
  destruct (find_vertex (_l_vertex c) gl); simpl.
  - by rewrite length_alter.
  - rewrite length_alter, !length_app. simpl. lia.
Qed.

Lemma evalview_vertices_log (vs : list Evalview.Vertices)
    (r : Evalview.Root (list LinaVector)) :
  Evalview._bounding_box (fold_left Evalview.vertex_step vs r) =
  Evalview._bounding_box r ++ (Evalview.global <$> vs).
Proof.
  revert r. induction vs as [|v vs IH]; intros r; simpl.
  - by rewrite app_nil_r.
  - rewrite IH. simpl. by rewrite <- app_assoc.
Qed.

Lemma evalview_elements_log (gridview : list Evalview.Entity)
    (r : Evalview.Root (list LinaVector)) :
  Evalview._bounding_box (fold_left Evalview.element_step gridview r) =
  Evalview._bounding_box r
  ++ concat ((λ e, Evalview.global <$> Evalview.vertices e) <$> gridview).
Proof.
  revert r. induction gridview as [|e gridview IH]; intros r; simpl.
  - by rewrite app_nil_r.
  - rewrite IH. unfold Evalview.element_step. rewrite evalview_vertices_log.
    simpl. by rewrite <- app_assoc.
Qed.

(** X10: in [evalview::Root] every vertex of every element reaches
    [append], in enumeration order. *)
Lemma evalview_appends_every_vertex (gridview : list Evalview.Entity) :
  Evalview._bounding_box (Evalview.Root_ctor (B := list LinaVector) gridview) =
  concat ((λ e, Evalview.global <$> Evalview.vertices e) <$> gridview).
Proof. unfold Evalview.Root_ctor. by rewrite evalview_elements_log. Qed.

End BoundingBoxLog.

(** ** Trajectory *)

(** C10: the one-argument [insert] evaluates its throw-expression exactly
    when [adepting] is false; when [adepting] is true it returns with both
    buffers as they were, [xt] is not inserted. *)
Theorem insert_throws_iff_not_adepting (tr : Trajectory.Trajectory) (xt : Trajectory.XT) :
  (Trajectory.insert tr xt = Throw ↔ Trajectory.adepting tr = false)
  ∧ (Trajectory.adepting tr = true →
     ∃ tr', Trajectory.insert tr xt = Return tr'
            ∧ Trajectory.data tr' = Trajectory.data tr
            ∧ Trajectory.dq tr' = Trajectory.dq tr).
Proof.
  unfold Trajectory.insert. destruct (Trajectory.adepting tr); simpl.
  - split; [split; done|]. intros _. by exists tr.
  - split; [split; done|]. done.
Qed.

(* ===================================================================== *)
(** * The claims on concrete meshes                                        *)
(* ===================================================================== *)

Section Scenarios.
Import Tree Meshes.
#[local] Existing Instance grid.
#[local] Existing Instance libstdcxx.

(** C1.  One triangle, a query inside the bounding box and outside the
    triangle: the single candidate is rejected and line 178 is reached.  With
    no exception being handled by the caller the program is terminated;
    inside a handler the caller's own exception is thrown again.  No value
    of a failure type is produced either way. *)
Theorem findEntity_not_found_terminates :
  let c := Root_ctor (B := BoundingBox) [T0] in
  let x := [0.75; 0.75]%float in
  BoundingBox_contains (_bounding_box (this c)) x = true
  ∧ findNode c x = Some (leaf c)
  ∧ (_entity_seed <$> _vertex (leaf c) !! 0) = Some [mk_pointer 1 0]
  ∧ Forall (rejected (_entities (this c)) x) [mk_pointer 1 0]
  ∧ findEntity (findNode c) (this c) x = Throw
  ∧ unwind (E := unit) None (findEntity (findNode c) (this c) x) = Terminate
  ∧ unwind (Some ()) (findEntity (findNode c) (this c) x) = Propagates ().
Proof.
  split_and!; try (vm_compute; reflexivity).
  constructor; [|constructor]. exists 0. split; vm_compute; reflexivity.
Qed.

(** C2, refuted as stated: in the mesh [T0; T1'] the vertex at position 1
    was created for the corner (1,0) and ends with the coordinate of the
    corner merged into it later. *)
Lemma first_registered_coordinate_replaced :
  ∃ i v, _l_vertex (Root_ctor (B := BoundingBox) [T0; T1']) !! i = Some v
         ∧ head (resolved_to i (registration (B := BoundingBox) [T0; T1'])) = Some [1; 0]%float
         ∧ head (resolved_to i (registration (B := BoundingBox) [T0; T1'])) ≠ Some (_global v).
Proof.
  exists 1, (mk_Vertex [0x1.0000000000001p0; 0]%float [mk_pointer 1 0; mk_pointer 2 1]).
  split_and!; [vm_compute; reflexivity..|].
  intros Heq. tell_apart Heq first_is_one.
Qed.

Lemma first_registered_wins_fails :
  ¬ first_registered_wins (B := BoundingBox) [T0; T1'].
Proof.
  intros Hfirst.
  specialize (Hfirst 1
    (mk_Vertex [0x1.0000000000001p0; 0]%float [mk_pointer 1 0; mk_pointer 2 1])).
  assert (head (resolved_to 1 (registration (B := BoundingBox) [T0; T1']))
          = Some [0x1.0000000000001p0; 0]%float) as Heq.
  { apply Hfirst. vm_compute. reflexivity. }
  tell_apart Heq first_is_one.
Qed.

Lemma global_is_last_registered_witness :
  last (resolved_to 1 (registration (B := BoundingBox) [T0; T1']))
  = Some [0x1.0000000000001p0; 0]%float.
Proof.
  apply (global_is_last_registered (B := BoundingBox) [T0; T1'] 1
           (mk_Vertex [0x1.0000000000001p0; 0]%float [mk_pointer 1 0; mk_pointer 2 1])).
  vm_compute. reflexivity.
Defined.



(** C4, refuted as stated: in the mesh [S0; S1] the corners (0,0) and
    (18 eps, 0) are resolved to the same vertex, 18 eps apart. *)
Lemma distant_corners_same_vertex :
  registration (B := BoundingBox) [S0; S1] !! 0 = Some (0, [0; 0]%float)
  ∧ registration (B := BoundingBox) [S0; S1] !! 4 = Some (0, [0x12p-52; 0]%float)
  ∧ within_tolerance [0; 0]%float [0x12p-52; 0]%float = false.
Proof. split_and!; vm_compute; reflexivity. Qed.

Lemma same_vertex_iff_close_fails :
  ¬ same_vertex_iff_close (B := BoundingBox) [S0; S1].
Proof.
  intros Hiff.
  specialize (Hiff 0 4 0 0 [0; 0]%float [0x12p-52; 0]%float).
  assert (within_tolerance [0; 0]%float [0x12p-52; 0]%float = true) as Hclose.
  { apply Hiff; [vm_compute; reflexivity..|reflexivity]. }
  vm_compute in Hclose. discriminate Hclose.
Qed.

Lemma resolved_by_stored_coordinate_witness :
  let l := _l_vertex (Root_ctor (B := BoundingBox) [T0]) in
  ∃ v, l !! 1 = Some v
       ∧ within_tolerance (_global v) [0x1.0000000000001p0; 0]%float = true
       ∧ ∀ j v', 1 < j → l !! j = Some v' →
                 within_tolerance (_global v') [0x1.0000000000001p0; 0]%float = false.
Proof.
  intros l.
  apply (proj1 (proj1 (resolved_by_stored_coordinate (B := BoundingBox) l
                         [0x1.0000000000001p0; 0]%float) 1)).
  vm_compute. reflexivity.
Defined.

(** C5, refuted as stated: the corner (1 + 2^-52, 0) of [T1'] is within the
    tolerance of the registered vertex (1,0); registering it changes the
    stored coordinate of that vertex, which no choice of [i] in
    [append_only] accounts for. *)
Lemma merge_replaces_coordinate :
  let c := enter (element_step (B := BoundingBox) Ctor_init T0) T1' in
  let gl := [0x1.0000000000001p0; 0]%float in
  (∃ j v, _l_vertex c !! j = Some v ∧ within_tolerance (_global v) gl = true)
  ∧ ∀ i, ¬ append_only (back_ptr (_entities (this c))) i
             (_l_vertex c) (_l_vertex (corner_step c gl)).
Proof.
  split.
  - exists 1, (mk_Vertex [1; 0]%float [mk_pointer 1 0]). split; vm_compute; reflexivity.
  - intros i Honly%append_only_globals. tell_apart Honly second_starts_with_one.
Qed.

Lemma merge_changes_matched_vertex_witness :
  let c := enter (element_step (B := BoundingBox) Ctor_init T0) T1' in
  let gl := [0x1.0000000000001p0; 0]%float in
  length (_l_vertex (corner_step c gl)) = length (_l_vertex c)
  ∧ this (corner_step c gl) = this c
  ∧ ∃ i v, _l_vertex c !! i = Some v
           ∧ within_tolerance (_global v) gl = true
           ∧ (∀ j v', i < j → _l_vertex c !! j = Some v' →
                      within_tolerance (_global v') gl = false)
           ∧ _l_vertex (corner_step c gl) !! i =
               Some (mk_Vertex gl (_entity_seed v ++ [back_ptr (_entities (this c))]))
           ∧ ∀ j, j ≠ i → _l_vertex (corner_step c gl) !! j = _l_vertex c !! j.
Proof.
  intros c gl. apply (merge_changes_matched_vertex c gl).
  exists 1, (mk_Vertex [1; 0]%float [mk_pointer 1 0]). split; vm_compute; reflexivity.
Defined.

(** C6, refuted as stated: statistics of a tree to which the traversal
    contributes nothing.  Both counters are 0 and none of the four averages
    is 0: each is a NaN. *)
Lemma empty_tree_averages_not_zero :
  let ts := fillTreeStats (B := BoundingBox) (λ ts, ts) (this Ctor_init)
              TreeStats_zero in
  numNodes ts = 0%Z ∧ numLeafs ts = 0%Z
  ∧ PrimFloat.eqb (aveLevel ts) 0%float = false
  ∧ PrimFloat.eqb (aveLeafLevel ts) 0%float = false
  ∧ PrimFloat.eqb (aveVertices ts) 0%float = false
  ∧ PrimFloat.eqb (aveEntitiesPerLeaf ts) 0%float = false.
Proof. split_and!; vm_compute; reflexivity. Qed.

Lemma averages_of_empty_tree_witness :
  let ts := fillTreeStats (B := BoundingBox) (λ ts, ts) (this Ctor_init)
              TreeStats_zero in
  PrimFloat.is_nan (aveLevel ts) = true
  ∧ PrimFloat.is_nan (aveLeafLevel ts) = true
  ∧ PrimFloat.is_nan (aveVertices ts) = true
  ∧ PrimFloat.is_nan (aveEntitiesPerLeaf ts) = true.
Proof.
  intros ts.
  apply (averages_of_empty_tree (B := BoundingBox) (λ ts, ts) (this Ctor_init)
           TreeStats_zero); reflexivity.
Defined.

(** C7, refuted as stated: the mesh [T0; T1'] has six corners and
    [tree::Root] calls [append] four times, never for the corner
    (1 + 2^-52, 0) of [T1'].  That corner is merged into the vertex created
    for (1,0), which carries it afterwards, and it lies outside the box. *)
Lemma merged_corner_not_absorbed :
  let gl := [0x1.0000000000001p0; 0]%float in
  gl ∈ corners T1'
  ∧ length (concat (corners <$> [T0; T1'])) = 6
  ∧ _bounding_box (this (Root_ctor (B := list LinaVector) [T0; T1']))
    = [[0; 0]; [1; 0]; [0; 1]; [1; 1]]%float
  ∧ (_global <$> _l_vertex (Root_ctor (B := BoundingBox) [T0; T1']) !! 1) = Some gl
  ∧ BoundingBox_contains
      (_bounding_box (this (Root_ctor (B := BoundingBox) [T0; T1']))) gl = false.
Proof.
  split_and!; try (vm_compute; reflexivity). constructor.
Qed.

(** C8.  The unit square, two triangles, libstdc++: the second [push_back]
    of line 94 finds the vector full and moves the seeds to a new block; the
    pointer stored for the first triangle points into the old one.  A query
    inside the first triangle dereferences it. *)
Theorem entity_seed_pointers_dangle :
  let c := Root_ctor (B := BoundingBox) [T0; T1] in
  _l_vertex c !! 0 = Some (mk_Vertex [0; 0]%float [mk_pointer 1 0])
  ∧ buffer (_entities (this c)) = 2
  ∧ deref (_entities (this c)) (mk_pointer 1 0) = None
  ∧ findEntity (findNode c) (this c) [0.25; 0.25]%float = Undefined.
Proof. split_and!; vm_compute; reflexivity. Qed.

Lemma insert_throws_iff_not_adepting_witness :
  let xt := Trajectory.mk_XT [0.5; 0.5]%float 0%float in
  Trajectory.insert Trajectory.Trajectory_new xt = Throw
  ∧ ∃ tr', Trajectory.insert (Trajectory.preAdept Trajectory.Trajectory_new) xt = Return tr'
           ∧ Trajectory.data tr' = Trajectory.data (Trajectory.preAdept Trajectory.Trajectory_new)
           ∧ Trajectory.dq tr' = Trajectory.dq (Trajectory.preAdept Trajectory.Trajectory_new).
Proof.
  intros xt. split.
  - apply (proj2 (proj1 (insert_throws_iff_not_adepting Trajectory.Trajectory_new xt))).
    reflexivity.
  - apply (proj2 (insert_throws_iff_not_adepting
                    (Trajectory.preAdept Trajectory.Trajectory_new) xt)).
    reflexivity.
Defined.

End Scenarios.

(* ===================================================================== *)
(** * Further properties of the constructors and of point location        *)
(* ===================================================================== *)

Section VectorContents.
Context {GP : Growth} {A : Type}.

Lemma elems_push_back (v : vector A) (a : A) : elems (push_back v a) = elems v ++ [a].
Proof. unfold push_back. by destruct (size v <? capacity v). Qed.

Lemma size_push_back (v : vector A) (a : A) : size (push_back v a) = S (size v).
Proof. unfold size. rewrite elems_push_back, length_app. simpl. lia. Qed.

Lemma deref_Some_elem (v : vector A) (p : pointer) (a : A) :
  deref v p = Some a → elems v !! offset p = Some a ∧ block p = buffer v.
Proof.
  unfold deref. destruct (block p =? buffer v) eqn:E; [|done].
  apply Nat.eqb_eq in E. done.
Qed.

End VectorContents.

Section RegistrationMore.
Context {G : Grid} {GP : Growth} {B : Type} {BX : Box B}.
Implicit Types (l : list Tree.Vertex) (gl : LinaVector) (c : Tree.Ctor B).
Import Tree.

(** What a position of the vertex list holds after one corner. *)
Lemma corner_step_lookup c gl j (v' : Vertex) :
  _l_vertex (corner_step c gl) !! j = Some v' →
  (j = resolved (_l_vertex c) gl
   ∧ v' = store gl (back_ptr (_entities (this c)))
                (default Vertex_new (_l_vertex c !! j)))
  ∨ (j ≠ resolved (_l_vertex c) gl ∧ _l_vertex c !! j = Some v').
Proof.
  rewrite corner_step_vertices. unfold resolved.
  destruct (find_vertex (_l_vertex c) gl) as [i|] eqn:E.
  - rewrite list_lookup_alter. case_decide as Hj; subst.
    + destruct (_l_vertex c !! j) eqn:Ev; simpl; [|done]. intros [= <-]. by left.
    + intros Hj'. right. by split.
  - rewrite list_lookup_alter. case_decide as Hj; subst.
    + rewrite list_lookup_middle by done. simpl. intros [= <-]. left.
      split; [done|]. by rewrite lookup_ge_None_2.
    + intros Hj'. right. split; [done|].
      assert (j < length (_l_vertex c)) as Hlt.
      { apply lookup_lt_Some in Hj'. rewrite length_app in Hj'. simpl in Hj'. lia. }
      by rewrite lookup_app_l in Hj'.
Qed.

Lemma corner_step_length c gl :
  length (_l_vertex (corner_step c gl)) =
  match find_vertex (_l_vertex c) gl with
  | Some _ => length (_l_vertex c)
  | None => S (length (_l_vertex c))
  end.
Proof.
  rewrite corner_step_vertices, length_alter.
  destruct (find_vertex (_l_vertex c) gl); [done|].
  rewrite length_app. simpl. lia.
Qed.

Lemma resolved_lt_corner_step c gl :
  resolved (_l_vertex c) gl < length (_l_vertex (corner_step c gl)).
Proof.
  rewrite corner_step_length. unfold resolved.
  destruct (find_vertex (_l_vertex c) gl) eqn:E; [|lia].
  by apply find_vertex_lt in E.
Qed.

Lemma length_le_corner_step c gl :
  length (_l_vertex c) ≤ length (_l_vertex (corner_step c gl)).
Proof. rewrite corner_step_length. destruct (find_vertex (_l_vertex c) gl); lia. Qed.

(** *** The seed container *)

Lemma elements_entities (gridview : list Entity) c :
  elems (_entities (this (fold_left element_step gridview c)))
  = elems (_entities (this c)) ++ (seed <$> gridview).
Proof.
  revert c. induction gridview as [|e gridview IH]; intros c; simpl.
  - by rewrite app_nil_r.
  - rewrite IH, element_step_entities, elems_push_back. by rewrite <- app_assoc.
Qed.

(** X1: the constructor stores the seed of every element, once, in the
    order of the grid view. *)
Theorem Root_ctor_entities (gridview : list Entity) :
  elems (_entities (this (Root_ctor gridview))) = seed <$> gridview.
Proof. unfold Root_ctor. by rewrite elements_entities. Qed.

(** *** The corners, in order *)

Lemma corner_trace_corners cs c : (corner_trace c cs).*2 = cs.
Proof.
  revert c. induction cs as [|gl cs IH]; intros c; simpl; [done|]. by rewrite IH.
Qed.

Lemma trace_corners (gridview : list Entity) c :
  (trace c gridview).*2 = concat (corners <$> gridview).
Proof.
  revert c. induction gridview as [|e gridview IH]; intros c; simpl; [done|].
  by rewrite fmap_app, corner_trace_corners, IH.
Qed.

Lemma resolved_to_subseteq i (tr : list (nat * LinaVector)) gl :
  gl ∈ resolved_to i tr → gl ∈ tr.*2.
Proof.
  unfold resolved_to. intros ([j g] & -> & Hin)%list_elem_of_fmap.
  apply list_elem_of_filter in Hin as [_ Hin].
  apply list_elem_of_fmap. by exists (j, g).
Qed.

(** *** Every vertex has an incident seed *)

Definition seeded c : Prop := ∀ v, v ∈ _l_vertex c → _entity_seed v ≠ [].

Lemma seeded_corner_step c gl : seeded c → seeded (corner_step c gl).
Proof.
  intros Hc v' (j & Hj)%list_elem_of_lookup.
  apply corner_step_lookup in Hj as [[_ ->]|[_ Hj]].
  - simpl. intros Heq. by apply app_nil in Heq as [_ ?].
  - apply Hc. apply list_elem_of_lookup. eauto.
Qed.

Lemma seeded_elements (gridview : list Entity) c :
  seeded c → seeded (fold_left element_step gridview c).
Proof.
  revert c. induction gridview as [|e gridview IH]; intros c Hc; simpl; [done|].
  apply IH. unfold element_step.
  assert (seeded (enter c e)) as Henter by done.
  revert Henter. generalize (enter c e). clear c Hc.
  induction (corners e) as [|gl cs IHcs]; intros c Hc; simpl; [done|].
  by apply IHcs, seeded_corner_step.
Qed.

Lemma vertices_le_corners_step cs c :
  length (_l_vertex (fold_left corner_step cs c)) ≤ length (_l_vertex c) + length cs.
Proof.
  revert c. induction cs as [|gl cs IH]; intros c; simpl; [lia|].
  etrans; [apply IH|]. rewrite corner_step_length.
  destruct (find_vertex (_l_vertex c) gl); lia.
Qed.

Lemma vertices_le_corners_elements (gridview : list Entity) c :
  length (_l_vertex (fold_left element_step gridview c))
  ≤ length (_l_vertex c) + length (concat (corners <$> gridview)).
Proof.
  revert c. induction gridview as [|e gridview IH]; intros c; simpl; [lia|].
  etrans; [apply IH|]. rewrite length_app.
  pose proof (vertices_le_corners_step (corners e) (enter c e)) as Hle.
  change (_l_vertex (enter c e)) with (_l_vertex c) in Hle.
  change (fold_left corner_step (corners e) (enter c e)) with (element_step c e) in Hle.
  change (list_fmap Entity (list LinaVector) corners gridview)
    with (corners <$> gridview).
  lia.
Qed.

(** X2: the vertices the constructor produces come from the corners of
    the mesh.  There are never more vertices than corners; the coordinate of
    a vertex is the coordinate of a corner of some element, bit for bit; and
    every vertex has at least one incident seed. *)
Theorem vertices_come_from_corners (gridview : list Entity) :
  length (_l_vertex (Root_ctor gridview)) ≤ length (concat (corners <$> gridview))
  ∧ ∀ v, v ∈ _l_vertex (Root_ctor gridview) →
         _global v ∈ concat (corners <$> gridview) ∧ _entity_seed v ≠ [].
Proof.
  split.
  - unfold Root_ctor. etrans; [apply vertices_le_corners_elements|]. simpl. lia.
  - intros v Hv. split.
    + apply list_elem_of_lookup in Hv as (i & Hi).
      pose proof (stores_last_elements gridview Ctor_init []) as Hlast.
      simpl in Hlast. unfold Root_ctor in Hi.
      assert (last (resolved_to i (trace Ctor_init gridview)) = Some (_global v))
        as Hl.
      { apply Hlast; [|done]. intros j w Hj. unfold Ctor_init in Hj. simpl in Hj.
        by rewrite lookup_nil in Hj. }
      rewrite <- (trace_corners gridview Ctor_init).
      apply (resolved_to_subseteq i). rewrite last_Some in Hl.
      destruct Hl as (l' & ->). apply elem_of_app. right. by apply list_elem_of_singleton.
    + revert v Hv. apply seeded_elements. intros v Hv.
      unfold Ctor_init in Hv. simpl in Hv. by apply not_elem_of_nil in Hv.
Qed.

End RegistrationMore.

Section BoxOfCreatingCorners.
Context {G : Grid} {GP : Growth}.
Implicit Types (c : Tree.Ctor (list LinaVector)) (tr : list (nat * LinaVector)).
Import Tree.

(** The calls of [append] so far, position by position, are the corners
    that created the vertices. *)
Definition box_is_first c tr : Prop :=
  length (_bounding_box (this c)) = length (_l_vertex c)
  ∧ ∀ i, _bounding_box (this c) !! i = head (resolved_to i tr).

Lemma head_snoc_Some {A : Type} (l : list A) (a b : A) :
  head l = Some a → head (l ++ [b]) = Some a.
Proof. by destruct l. Qed.

Lemma head_snoc_None {A : Type} (l : list A) (b : A) :
  head l = None → head (l ++ [b]) = Some b.
Proof. by destruct l. Qed.

Lemma box_is_first_corner_step c tr gl :
  box_is_first c tr →
  box_is_first (corner_step c gl) (tr ++ [(resolved (_l_vertex c) gl, gl)]).
Proof.
  intros [Hlen Hbox]. unfold box_is_first, corner_step, resolved.
  destruct (find_vertex (_l_vertex c) gl) as [r|] eqn:E;
    cbn [_l_vertex this _bounding_box Root_Node append append_log].
  - split; [by rewrite length_alter|]. intros i.
    rewrite resolved_to_snoc. case_decide as Hr; [subst i|by rewrite app_nil_r].
    apply find_vertex_lt in E. rewrite <- Hlen in E.
    apply lookup_lt_is_Some_2 in E as [g Hg]. rewrite Hg.
    symmetry. apply head_snoc_Some. by rewrite <- Hbox.
  - split; [rewrite length_alter, !length_app; simpl; lia|]. intros i.
    rewrite resolved_to_snoc. case_decide as Hr.
    + subst i. rewrite <- Hlen, list_lookup_middle by done.
      symmetry. apply head_snoc_None. rewrite <- Hbox.
      by apply lookup_ge_None_2.
    + rewrite app_nil_r, <- Hbox.
      destruct (decide (i < length (_bounding_box (this c)))) as [Hlt|Hge].
      * by rewrite lookup_app_l.
      * rewrite !lookup_ge_None_2; [done|lia|]. rewrite length_app. simpl. lia.
Qed.

Lemma box_is_first_corners cs c tr :
  box_is_first c tr →
  box_is_first (fold_left corner_step cs c) (tr ++ corner_trace c cs).
Proof.
  revert c tr. induction cs as [|gl cs IH]; intros c tr Hinv; simpl.
  - by rewrite app_nil_r.
  - rewrite (cons_middle _ tr), app_assoc. by apply IH, box_is_first_corner_step.
Qed.

Lemma box_is_first_elements (gridview : list Entity) c tr :
  box_is_first c tr →
  box_is_first (fold_left element_step gridview c) (tr ++ trace c gridview).
Proof.
  revert c tr. induction gridview as [|e gridview IH]; intros c tr Hinv; simpl.
  - by rewrite app_nil_r.
  - rewrite app_assoc. apply IH. unfold element_step.
    by apply box_is_first_corners.
Qed.

Lemma box_sublist_corner_step c tr gl :
  _bounding_box (this c) `sublist_of` tr.*2 →
  _bounding_box (this (corner_step c gl))
    `sublist_of` (tr ++ [(resolved (_l_vertex c) gl, gl)]).*2.
Proof.
  intros Hsub. rewrite fmap_app. unfold corner_step.
  destruct (find_vertex (_l_vertex c) gl);
    cbn [_l_vertex this _bounding_box Root_Node append append_log].
  - by apply sublist_inserts_r.
  - by apply sublist_app.
Qed.

Lemma box_sublist_corners cs c tr :
  _bounding_box (this c) `sublist_of` tr.*2 →
  _bounding_box (this (fold_left corner_step cs c))
    `sublist_of` (tr ++ corner_trace c cs).*2.
Proof.
  revert c tr. induction cs as [|gl cs IH]; intros c tr Hsub; simpl.
  - by rewrite app_nil_r.
  - rewrite (cons_middle _ tr), app_assoc. by apply IH, box_sublist_corner_step.
Qed.

Lemma box_sublist_elements (gridview : list Entity) c tr :
  _bounding_box (this c) `sublist_of` tr.*2 →
  _bounding_box (this (fold_left element_step gridview c))
    `sublist_of` (tr ++ trace c gridview).*2.
Proof.
  revert c tr. induction gridview as [|e gridview IH]; intros c tr Hsub; simpl.
  - by rewrite app_nil_r.
  - rewrite app_assoc. apply IH. unfold element_step.
    by apply (box_sublist_corners (corners e) (enter c e)).
Qed.

(** X3: [tree::Root] calls [append] once for each vertex it creates and
    for nothing else, in the order the vertices are created, and the
    argument of the call is the corner that created the vertex, the first
    one resolved to it.  The calls are a subsequence of the corners of the
    mesh in enumeration order, which is what [evalview::Root] appends. *)
Theorem box_absorbs_creating_corners (gridview : list Entity) :
  length (_bounding_box (this (Root_ctor (B := list LinaVector) gridview)))
  = length (_l_vertex (Root_ctor (B := list LinaVector) gridview))
  ∧ (∀ i, _bounding_box (this (Root_ctor (B := list LinaVector) gridview)) !! i
          = head (resolved_to i (registration (B := list LinaVector) gridview)))
  ∧ _bounding_box (this (Root_ctor (B := list LinaVector) gridview))
      `sublist_of` concat (corners <$> gridview).
Proof.
  pose proof (box_is_first_elements gridview Ctor_init []) as Hinv.
  simpl in Hinv. destruct Hinv as [Hlen Hfirst].
  { split; [done|]. intros i. simpl. by rewrite lookup_nil. }
  split_and!; [done|done|].
  rewrite <- (trace_corners gridview Ctor_init).
  apply (box_sublist_elements gridview Ctor_init []). simpl. apply sublist_nil_l.
Qed.

End BoxOfCreatingCorners.

Section BoxOfAnyKind.
Context {G : Grid} {GP : Growth} {B : Type} {BX : Box B}.
Implicit Types (c : Tree.Ctor B) (tr : list (nat * LinaVector)) (log : list LinaVector).
Import Tree.

(** The box is what the calls of [append] for [log], in this order, make of
    a new box; there is one call per vertex, and the call at position [i]
    has the corner that created the vertex at position [i]. *)
Definition box_absorbed c tr log : Prop :=
  _bounding_box (this c) = fold_left append log box_new
  ∧ length log = length (_l_vertex c)
  ∧ ∀ i, log !! i = head (resolved_to i tr).

Lemma box_absorbed_corner_step c tr log gl :
  box_absorbed c tr log →
  ∃ log', box_absorbed (corner_step c gl) (tr ++ [(resolved (_l_vertex c) gl, gl)]) log'.
Proof.
  intros (Hbox & Hlen & Hlog). unfold box_absorbed, corner_step, resolved.
  destruct (find_vertex (_l_vertex c) gl) as [r|] eqn:E;
    cbn [_l_vertex this _bounding_box Root_Node].
  - exists log. split_and!; [done|by rewrite length_alter|]. intros i.
    rewrite resolved_to_snoc. case_decide as Hr; [subst i|by rewrite app_nil_r].
    apply find_vertex_lt in E. rewrite <- Hlen in E.
    apply lookup_lt_is_Some_2 in E as [g Hg]. rewrite Hg.
    symmetry. apply head_snoc_Some. by rewrite <- Hlog.
  - exists (log ++ [gl]). split_and!.
    + by rewrite fold_left_app, Hbox.
    + rewrite length_alter, !length_app. simpl. lia.
    + intros i. rewrite resolved_to_snoc. case_decide as Hr.
      * subst i. rewrite <- Hlen, list_lookup_middle by done.
        symmetry. apply head_snoc_None. rewrite <- Hlog.
        by apply lookup_ge_None_2.
      * rewrite app_nil_r, <- Hlog.
        destruct (decide (i < length log)) as [Hlt|Hge].
        -- by rewrite lookup_app_l.
        -- rewrite !lookup_ge_None_2; [done|lia|]. rewrite length_app. simpl. lia.
Qed.

Lemma box_absorbed_corners cs c tr log :
  box_absorbed c tr log →
  ∃ log', box_absorbed (fold_left corner_step cs c) (tr ++ corner_trace c cs) log'.
Proof.
  revert c tr log. induction cs as [|gl cs IH]; intros c tr log Hinv; simpl.
  - exists log. by rewrite app_nil_r.
  - rewrite (cons_middle _ tr), app_assoc.
    destruct (box_absorbed_corner_step c tr log gl Hinv) as [log' Hinv'].
    by apply (IH _ _ log').
Qed.

Lemma box_absorbed_elements (gridview : list Entity) c tr log :
  box_absorbed c tr log →
  ∃ log', box_absorbed (fold_left element_step gridview c) (tr ++ trace c gridview) log'.
Proof.
  revert c tr log. induction gridview as [|e gridview IH]; intros c tr log Hinv; simpl.
  - exists log. by rewrite app_nil_r.
  - rewrite app_assoc. unfold element_step at 2.
    destruct (box_absorbed_corners (corners e) (enter c e) tr log Hinv) as [log' Hinv'].
    by apply (IH _ _ log').
Qed.

(** C7, as the code has it: [append] is called for a corner only when the
    corner creates a vertex.  Whatever the box does with a coordinate, the
    box of the constructed root is the new box after one call of [append]
    per registered vertex, in the order the vertices were created, each with
    the corner that created the vertex, the first one resolved to it; the
    corners merged into a registered vertex do not reach the box. *)
Theorem box_absorbs_when_vertex_created (gridview : list Entity) :
  ∃ log, _bounding_box (this (Root_ctor gridview)) = fold_left append log box_new
         ∧ length log = length (_l_vertex (Root_ctor gridview))
         ∧ ∀ i, log !! i = head (resolved_to i (registration gridview)).
Proof.
  destruct (box_absorbed_elements gridview Ctor_init [] []) as [log Hinv].
  - split_and!; [done|done|]. intros i. simpl. by rewrite lookup_nil.
  - by exists log.
Qed.

End BoxOfAnyKind.

Section IncidenceLists.
Context {G : Grid} {GP : Growth} {B : Type} {BX : Box B}.
Implicit Types (c : Tree.Ctor B) (tr : list (nat * nat)) (p : pointer).
Import Tree.

Lemma owners_of_snoc i tr r k :
  owners_of i (tr ++ [(r, k)]) = owners_of i tr ++ (if decide (r = i) then [k] else []).
Proof.
  unfold owners_of. rewrite filter_app, fmap_app. f_equal.
  rewrite filter_cons, filter_nil. simpl. by case_decide.
Qed.

(** The offsets stored in a vertex are the positions of the elements whose
    corners were resolved to it. *)
Definition records_owners c tr : Prop :=
  (∀ i v, _l_vertex c !! i = Some v → offset <$> _entity_seed v = owners_of i tr)
  ∧ ∀ i, length (_l_vertex c) ≤ i → owners_of i tr = [].

Lemma records_owners_corner_step c tr gl k :
  size (_entities (this c)) = S k →
  records_owners c tr →
  records_owners (corner_step c gl) (tr ++ [(resolved (_l_vertex c) gl, k)]).
Proof.
  intros Hsize [Hown Hnone]. split.
  - intros j v' Hj. rewrite owners_of_snoc.
    apply corner_step_lookup in Hj as [[-> ->]|[Hne Hj]].
    + rewrite decide_True by done. simpl. rewrite fmap_app. simpl.
      rewrite Hsize. simpl. f_equal.
      destruct (_l_vertex c !! resolved (_l_vertex c) gl) as [old|] eqn:Eold; simpl.
      * by apply Hown.
      * symmetry. apply Hnone. by apply lookup_ge_None_1.
    + rewrite decide_False by done. rewrite app_nil_r. by apply Hown.
  - intros i Hi. rewrite owners_of_snoc.
    pose proof (resolved_lt_corner_step c gl) as Hlt.
    pose proof (length_le_corner_step c gl) as Hle.
    rewrite decide_False by lia. rewrite app_nil_r. apply Hnone. lia.
Qed.

Lemma records_owners_corners cs c tr k :
  size (_entities (this c)) = S k →
  records_owners c tr →
  records_owners (fold_left corner_step cs c) (tr ++ corner_owners k c cs).
Proof.
  revert c tr. induction cs as [|gl cs IH]; intros c tr Hsize Hinv; simpl.
  - by rewrite app_nil_r.
  - rewrite (cons_middle _ tr), app_assoc. apply IH.
    + by rewrite corner_step_entities.
    + by apply records_owners_corner_step.
Qed.

Lemma records_owners_elements (gridview : list Entity) c tr k :
  size (_entities (this c)) = k →
  records_owners c tr →
  records_owners (fold_left element_step gridview c) (tr ++ owners k c gridview).
Proof.
  revert c tr k. induction gridview as [|e gridview IH]; intros c tr k Hsize Hinv; simpl.
  - by rewrite app_nil_r.
  - rewrite app_assoc. apply IH.
    + rewrite element_step_entities, size_push_back. by rewrite Hsize.
    + unfold element_step. apply records_owners_corners; [|done].
      simpl. rewrite size_push_back. by rewrite Hsize.
Qed.

(** X4: the incidence list of a vertex has one entry for every corner that
    was resolved to the vertex, in the order of the corners, and the offset
    of the entry is the position in the grid view of the element the corner
    belongs to.  An element with two corners resolved to the same vertex is
    listed twice. *)
Theorem incidence_lists_record_owners (gridview : list Entity) (i : nat) (v : Vertex) :
  _l_vertex (Root_ctor gridview) !! i = Some v →
  offset <$> _entity_seed v = owners_of i (incidence gridview).
Proof.
  intros Hv.
  pose proof (records_owners_elements gridview Ctor_init [] 0) as Hinv.
  simpl in Hinv. destruct Hinv as [Hown _]; [done| |by apply Hown].
  split; [|done]. intros j w Hj. unfold Ctor_init in Hj. simpl in Hj.
  by rewrite lookup_nil in Hj.
Qed.

(** Every stored pointer has the offset of an element entered so far, and
    the ones with the offset of the last element point into the current
    block. *)
Definition last_live c : Prop :=
  ∀ v p, v ∈ _l_vertex c → p ∈ _entity_seed v →
         offset p < size (_entities (this c))
         ∧ (offset p = Nat.pred (size (_entities (this c))) →
            block p = buffer (_entities (this c))).

Lemma last_live_corner_step c gl :
  0 < size (_entities (this c)) → last_live c → last_live (corner_step c gl).
Proof.
  intros Hsize Hc v p Hv Hp. rewrite corner_step_entities.
  destruct (corner_step_pointers c gl v p Hv Hp) as [->|(v0 & Hv0 & Hp0)].
  - simpl. split; [lia|done].
  - by apply (Hc v0).
Qed.

Lemma last_live_element_step c (e : Entity) :
  last_live c → last_live (element_step c e).
Proof.
  intros Hc. unfold element_step.
  assert (last_live (enter c e) ∧ 0 < size (_entities (this (enter c e)))) as Henter.
  { split; [|simpl; rewrite size_push_back; lia].
    intros v p Hv Hp. simpl. rewrite size_push_back.
    destruct (Hc v p Hv Hp) as [Hlt _]. split; [lia|]. simpl. lia. }
  revert Henter. generalize (enter c e). clear c Hc.
  induction (corners e) as [|gl cs IH]; intros c [Hc Hsize]; simpl; [done|].
  apply IH. split; [by apply last_live_corner_step|].
  by rewrite corner_step_entities.
Qed.

Lemma last_live_elements (gridview : list Entity) c :
  last_live c → last_live (fold_left element_step gridview c).
Proof.
  revert c. induction gridview as [|e gridview IH]; intros c Hc; simpl; [done|].
  by apply IH, last_live_element_step.
Qed.

Lemma seeds_of_last_element (gridview : list Entity) (e : Entity) (v : Vertex) p :
  v ∈ _l_vertex (Root_ctor (gridview ++ [e])) → p ∈ _entity_seed v →
  offset p < S (length gridview)
  ∧ (offset p = length gridview →
     deref (_entities (this (Root_ctor (gridview ++ [e])))) p = Some (seed e)).
Proof.
  intros Hv Hp.
  assert (last_live (Root_ctor (gridview ++ [e]))) as Hlive.
  { apply last_live_elements. intros w q Hw. unfold Ctor_init in Hw. simpl in Hw.
    by apply not_elem_of_nil in Hw. }
  assert (elems (_entities (this (Root_ctor (gridview ++ [e])))) = seed <$> (gridview ++ [e]))
    as Helems.
  { unfold Root_ctor. by rewrite elements_entities. }
  assert (size (_entities (this (Root_ctor (gridview ++ [e])))) = S (length gridview))
    as Hsize.
  { unfold size. rewrite Helems, length_fmap, length_app. simpl. lia. }
  destruct (Hlive v p Hv Hp) as [Hlt Hblock]. rewrite Hsize in Hlt, Hblock.
  split; [done|]. intros Hoff.
  unfold deref. rewrite Hblock by done.
  rewrite Nat.eqb_refl, Helems, Hoff, fmap_app. simpl.
  rewrite <- (length_fmap seed gridview). by rewrite list_lookup_middle.
Qed.

(** X5: whatever the growth policy, the pointers stored for the corners of
    the element entered last are live when the constructor returns, and
    they read the seed of that element. *)
Theorem last_element_seeds_are_live (gridview : list Entity) (e : Entity)
    (v : Vertex) p :
  v ∈ _l_vertex (Root_ctor (gridview ++ [e])) → p ∈ _entity_seed v →
  offset p = length gridview →
  deref (_entities (this (Root_ctor (gridview ++ [e])))) p = Some (seed e).
Proof.
  intros Hv Hp. by destruct (seeds_of_last_element gridview e v p Hv Hp) as [_ Hlive].
Qed.

End IncidenceLists.

Section PointLocationMore.
Context {G : Grid} {GP : Growth} {B : Type} {BX : Box B}.
Import Tree.

(** X6: [findEntity] returns only an element that passed the membership
    test for the query, and only an element whose seed is in [_entities],
    whatever [findNode] does and whatever the tree looks like. *)
Theorem findEntity_sound (findNode : LinaVector → option (Node B)) (root : Root B)
    (x : LinaVector) (ep : EntityPointer) :
  findEntity findNode root x = Return ep →
  checkInside_local ep x = true
  ∧ ∃ s, s ∈ elems (_entities root) ∧ ep = entityPointer s.
Proof.
  unfold findEntity. destruct (findNode x) as [node|]; [|done].
  destruct (_vertex node !! 0) as [v|]; [|done].
  intros (l1 & es & l2 & s & _ & _ & Hs & -> & Hin)%scan_seeds_Return.
  split; [done|]. exists s. split; [|done].
  apply deref_Some_elem in Hs as [Hs _]. apply list_elem_of_lookup. eauto.
Qed.

Lemma scan_seeds_Undefined (ents : vector EntitySeed) (x : LinaVector) (l : list pointer) :
  scan_seeds ents x l = Undefined ↔
  ∃ l1 es l2, l = l1 ++ es :: l2
              ∧ Forall (rejected ents x) l1
              ∧ deref ents es = None.
Proof.
  induction l as [|es0 l IH]; simpl.
  - split; [done|]. intros (l1 & es & l2 & Hl & _). by destruct l1.
  - destruct (deref ents es0) as [s0|] eqn:Es.
    + destruct (checkInside_local (entityPointer s0) x) eqn:Ein.
      * split; [done|]. intros (l1 & es & l2 & Hl & Hrej & Hs).
        destruct l1 as [|e l1]; simplify_eq/=.
        apply Forall_cons in Hrej as [(s' & Hs' & Hout) _]. congruence.
      * rewrite IH. split.
        -- intros (l1 & es & l2 & -> & Hrej & Hs).
           exists (es0 :: l1), es, l2. split_and!; try done.
           constructor; [by exists s0|done].
        -- intros (l1 & es & l2 & Hl & Hrej & Hs).
           destruct l1 as [|e l1]; simplify_eq/=.
           apply Forall_cons in Hrej as [_ Hrej].
           exists l1, es, l2. by split_and!.
    + split; [|done]. intros _. exists [], es0, l. by split_and!.
Qed.

(** X7: [findEntity] leaves through the [throw;] of line 178 exactly when
    [findNode] gave a node, the node has a first vertex, and every seed in
    the incidence list of that vertex was live and its element rejected the
    query. *)
Theorem findEntity_throws_iff (findNode : LinaVector → option (Node B)) (root : Root B)
    (x : LinaVector) :
  findEntity findNode root x = Throw ↔
  ∃ node v, findNode x = Some node ∧ _vertex node !! 0 = Some v
            ∧ Forall (rejected (_entities root) x) (_entity_seed v).
Proof.
  unfold findEntity. split.
  - destruct (findNode x) as [node|]; [|done].
    destruct (_vertex node !! 0) as [v|] eqn:Ev; [|done].
    intros Hscan%scan_seeds_Throw. by exists node, v.
  - intros (node & v & -> & -> & Hrej). by apply scan_seeds_Throw.
Qed.

(** X8: the behaviour of [findEntity] is undefined exactly when [findNode]
    gave the null pointer, or the node has no vertex, or the scan of the
    first vertex's incidence list reaches a dangling pointer before any
    element has accepted the query. *)
Theorem findEntity_undefined_iff (findNode : LinaVector → option (Node B)) (root : Root B)
    (x : LinaVector) :
  findEntity findNode root x = Undefined ↔
  findNode x = None
  ∨ ∃ node, findNode x = Some node
            ∧ (_vertex node !! 0 = None
               ∨ ∃ v l1 es l2, _vertex node !! 0 = Some v
                               ∧ _entity_seed v = l1 ++ es :: l2
                               ∧ Forall (rejected (_entities root) x) l1
                               ∧ deref (_entities root) es = None).
Proof.
  unfold findEntity. split.
  - destruct (findNode x) as [node|]; [|by left]. intros Hund. right. exists node.
    split; [done|]. destruct (_vertex node !! 0) as [v|] eqn:Ev; [|by left]. right.
    apply scan_seeds_Undefined in Hund as (l1 & es & l2 & Hl & Hrej & Hs).
    by exists v, l1, es, l2.
  - intros [->|(node & -> & [->|(v & l1 & es & l2 & -> & Hl & Hrej & Hs)])]; [done..|].
    apply scan_seeds_Undefined. by exists l1, es, l2.
Qed.

Lemma scan_seeds_one_element (ents : vector EntitySeed) (x : LinaVector)
    (l : list pointer) (s : EntitySeed) :
  l ≠ [] → (∀ p, p ∈ l → deref ents p = Some s) →
  scan_seeds ents x l =
  if checkInside_local (entityPointer s) x then Return (entityPointer s) else Throw.
Proof.
  induction l as [|p l IH]; intros Hne Hall; [done|]. simpl.
  rewrite (Hall p) by apply list_elem_of_here.
  destruct (checkInside_local (entityPointer s) x) eqn:Ein; [done|].
  destruct l as [|q l]; [done|].
  rewrite IH; [by rewrite ?Ein|done|].
  intros p' Hp'. apply Hall. by apply list_elem_of_further.
Qed.

(** X9: on a mesh of one element no stored pointer dangles, whatever the
    growth policy, and [findEntity] is decided by the membership test of
    that element alone: for a node whose first vertex is a vertex of the
    constructor, it returns the element when the test succeeds and leaves
    through line 178 when it fails. *)
Theorem findEntity_one_element (e : Entity) (findNode : LinaVector → option (Node B))
    (x : LinaVector) (node : Node B) (v : Vertex) :
  findNode x = Some node → _vertex node !! 0 = Some v →
  v ∈ _l_vertex (Root_ctor [e]) →
  findEntity findNode (this (Root_ctor [e])) x =
  if checkInside_local (entityPointer (seed e)) x
  then Return (entityPointer (seed e)) else Throw.
Proof.
  intros Hn Hv Hin. unfold findEntity. rewrite Hn, Hv.
  apply scan_seeds_one_element.
  - pose proof (seeded_elements [e] Ctor_init) as Hseeded.
    apply Hseeded; [|done]. intros w Hw. unfold Ctor_init in Hw. simpl in Hw.
    by apply not_elem_of_nil in Hw.
  - intros p Hp.
    destruct (seeds_of_last_element [] e v p Hin Hp) as [Hlt Hlive].
    apply Hlive. simpl in *. lia.
Qed.

End PointLocationMore.

(* ===================================================================== *)
(** * Further properties of evalview::Root                                *)
(* ===================================================================== *)

Section EvalviewMore.
Context {G : Grid} {GP : Growth} {B : Type} {BX : Box B}.
Implicit Types (r : Evalview.Root B) (vs : list Evalview.Vertices).
Import Evalview.

Lemma vertices_entities vs r :
  _entities (fold_left vertex_step vs r) = _entities r.
Proof. revert r. induction vs as [|v vs IH]; intros r; simpl; [done|]. by rewrite IH. Qed.

Lemma evalview_element_entities r (e : Entity) :
  _entities (element_step r e) = push_back (_entities r) (seed e).
Proof. unfold element_step. by rewrite vertices_entities. Qed.

Lemma evalview_elements_entities (gridview : list Entity) r :
  elems (_entities (fold_left element_step gridview r))
  = elems (_entities r) ++ (seed <$> gridview).
Proof.
  revert r. induction gridview as [|e gridview IH]; intros r; simpl.
  - by rewrite app_nil_r.
  - rewrite IH, evalview_element_entities, elems_push_back. by rewrite <- app_assoc.
Qed.

(** X11: [evalview::Root] stores the seed of every element, once, in the
    order of the grid view. *)
Theorem evalview_Root_entities (gridview : list Entity) :
  elems (_entities (Root_ctor gridview)) = seed <$> gridview.
Proof. unfold Root_ctor. by rewrite evalview_elements_entities. Qed.

End EvalviewMore.

(* ===================================================================== *)
(** * Further properties of Trajectory                                    *)
(* ===================================================================== *)

Section TrajectoryMore.
Import Trajectory.
Implicit Types (tr : Trajectory) (xt : XT) (l xs : list XT) (pd : PolyData).

(** X13: [push_back] never fails and never changes the mode.  A run of
    calls appends the samples, in order, to the buffer of the current mode
    and leaves the other buffer as it is. *)
Theorem push_back_run xs tr :
  adepting (fold_left push_back xs tr) = adepting tr
  ∧ data (fold_left push_back xs tr) = data tr ++ (if adepting tr then [] else xs)
  ∧ dq (fold_left push_back xs tr) = dq tr ++ (if adepting tr then xs else []).
Proof.
  revert tr. induction xs as [|xt xs IH]; intros tr; simpl.
  - destruct (adepting tr); by rewrite !app_nil_r.
  - destruct (IH (push_back tr xt)) as (-> & -> & ->).
    unfold push_back. destruct (adepting tr) eqn:E; simpl; rewrite ?E, ?app_nil_r;
      by rewrite <- ?app_assoc.
Qed.

(** X14: in adepting mode the two-argument [insert] puts the sample in
    front of the position the iterator designates: the sample is found at
    that position, the samples before it stay, the ones from it on move up by
    one, and the vector is not touched. *)
Theorem insert_at_position tr xt (it : nat) :
  adepting tr = true → it ≤ length (dq tr) →
  ∃ tr', insert_at tr xt it = Return tr'
         ∧ adepting tr' = true
         ∧ data tr' = data tr
         ∧ length (dq tr') = S (length (dq tr))
         ∧ dq tr' !! it = Some xt
         ∧ (∀ j, j < it → dq tr' !! j = dq tr !! j)
         ∧ (∀ j, it ≤ j → dq tr' !! S j = dq tr !! j).
Proof.
  intros Had Hit. unfold insert_at. rewrite Had. simpl. eexists. split; [done|]. simpl.
  assert (length (take it (dq tr)) = it) as Htake by (rewrite length_take; lia).
  split_and!; try done.
  - rewrite length_app. simpl. rewrite length_take, length_drop. lia.
  - rewrite lookup_app_r by lia. by rewrite Htake, Nat.sub_diag.
  - intros j Hj. rewrite lookup_app_l by lia. by rewrite lookup_take_lt.
  - intros j Hj. rewrite lookup_app_r by lia. rewrite Htake.
    replace (S j - it) with (S (j - it)) by lia. simpl.
    rewrite lookup_drop. f_equal. lia.
Qed.

(** X15: in every state exactly one of the two iterator families can be
    used.  While not adepting the vector range is available and spans
    [data], and both deque accessors throw; while adepting it is the other
    way round. *)
Theorem iterator_families_exclude tr :
  (adepting tr = false
   ∧ vector_begin tr = Return 0 ∧ vector_end tr = Return (length (data tr))
   ∧ deque_begin tr = Throw ∧ deque_end tr = Throw)
  ∨ (adepting tr = true
     ∧ deque_begin tr = Return 0 ∧ deque_end tr = Return (length (dq tr))
     ∧ vector_begin tr = Throw ∧ vector_end tr = Throw).
Proof.
  unfold vector_begin, vector_end, deque_begin, deque_end.
  destruct (adepting tr); [right|left]; by split_and!.
Qed.

(** *** writeVTK *)

Lemma point_of_point dim T (a : XT) :
  dim = 2 ∨ dim = 3 → point_of dim T a = Some (point dim T a).
Proof. unfold point. by intros [-> | ->]. Qed.

Lemma point_of_None dim T (a : XT) :
  ¬ (dim = 2 ∨ dim = 3) → point_of dim T a = None.
Proof.
  intros Hdim. unfold point_of.
  destruct dim as [|[|[|[|dim]]]]; try done; exfalso; apply Hdim; auto.
Qed.

(** The loop over the samples, for a dimension it handles. *)
Lemma segments_spec dim T pd l :
  dim = 2 ∨ dim = 3 →
  segments dim T pd l =
  Return (mk_PolyData
    (Points pd ++ concat ((λ ab, [point dim T ab.1; point dim T ab.2]) <$> zip l (tail l)))
    (Verts pd ++ ((λ k, [length (Points pd) + 2 * k]) <$> seq 0 (length l - 1)))
    (Polys pd ++ ((λ k, [length (Points pd) + 2 * k; S (length (Points pd) + 2 * k)])
                    <$> seq 0 (length l - 1)))).
Proof.
  intros Hdim. revert pd. induction l as [|a l IH]; intros pd.
  - simpl. rewrite !app_nil_r. by destruct pd.
  - destruct l as [|b l].
    + simpl. rewrite !app_nil_r. by destruct pd.
    + change (segments dim T pd (a :: b :: l))
        with (match segment dim T pd a b with
              | Return pd' => segments dim T pd' (b :: l)
              | Throw => Throw
              | Undefined => Undefined
              end).
      unfold segment. rewrite !point_of_point by done. rewrite IH.
      cbn [Points Verts Polys]. f_equal.
      replace (length (a :: b :: l) - 1) with (S (length (b :: l) - 1)) by (simpl; lia).
      rewrite length_app. cbn [length tail zip zip_with fmap list_fmap concat seq].
      rewrite <- !fmap_S_seq, <- !list_fmap_compose.
      rewrite Nat.mul_0_r, Nat.add_0_r.
      f_equal.
      * by rewrite <- app_assoc.
      * rewrite <- app_assoc. simpl. do 2 f_equal.
        apply list_fmap_ext. intros _ k _. simpl. f_equal. lia.
      * rewrite <- app_assoc. simpl. do 2 f_equal.
        apply list_fmap_ext. intros _ k _. simpl. f_equal; [lia|f_equal; lia].
Qed.

(** For any other dimension the first turn of the loop reads [pid]
    without its having been written. *)
Lemma segments_other_dim dim T pd a b l :
  ¬ (dim = 2 ∨ dim = 3) → segments dim T pd (a :: b :: l) = Undefined.
Proof.
  intros Hdim.
  change (segments dim T pd (a :: b :: l))
    with (match segment dim T pd a b with
          | Return pd' => segments dim T pd' (b :: l)
          | Throw => Throw
          | Undefined => Undefined
          end).
  unfold segment. by rewrite point_of_None.
Qed.

(** X16: for a trajectory of n >= 1 samples in dimension 2 or 3,
    [writeVTK] gives the writer 2(n-1) points, n-1 vertex cells and n-1
    line cells under the file name it was called with: the k-th pair of
    points is the k-th sample and its successor (every inner sample is
    inserted twice), the k-th vertex cell is the point 2k, the k-th line
    joins the points 2k and 2k+1, and the time axis is scaled by
    1/|t_first - t_last|. *)
Theorem writeVTK_polydata dim tr (path : string) :
  adepting tr = false → data tr ≠ [] → dim = 2 ∨ dim = 3 →
  ∃ front back,
    head (data tr) = Some front ∧ last (data tr) = Some back
    ∧ writeVTK dim tr path =
      Return (path, mk_PolyData
        (concat ((λ ab, [point dim (time_scale front back) ab.1;
                         point dim (time_scale front back) ab.2])
                   <$> zip (data tr) (tail (data tr))))
        ((λ k, [2 * k]) <$> seq 0 (length (data tr) - 1))
        ((λ k, [2 * k; S (2 * k)]) <$> seq 0 (length (data tr) - 1))).
Proof.
  intros Had Hne Hdim. unfold writeVTK. rewrite Had.
  destruct (data tr) as [|front l] eqn:Edata; [done|].
  destruct (last (front :: l)) as [back|] eqn:Elast.
  2: { by apply last_None in Elast. }
  exists front, back. split_and!; [done|done|].
  by rewrite segments_spec.
Qed.

(** X17: [writeVTK] returns exactly when the trajectory is not adepting,
    has at least one sample, and either the dimension is 2 or 3 or there is
    a single sample; it leaves through line 365 exactly when the trajectory
    is adepting.  On an empty trajectory, and on two or more samples of
    another dimension, its behaviour is undefined. *)
Theorem writeVTK_returns_iff dim tr (path : string) :
  ((∃ r, writeVTK dim tr path = Return r)
   ↔ adepting tr = false ∧ data tr ≠ []
     ∧ (dim = 2 ∨ dim = 3 ∨ length (data tr) = 1))
  ∧ (writeVTK dim tr path = Throw ↔ adepting tr = true)
  ∧ (writeVTK dim tr path = Undefined
     ↔ adepting tr = false
       ∧ (data tr = [] ∨ (¬ (dim = 2 ∨ dim = 3) ∧ 2 ≤ length (data tr)))).
Proof.
  unfold writeVTK. destruct (adepting tr).
  { split_and!; split; try done; try by intros [? _]. by intros [? ?]. }
  destruct (data tr) as [|front l] eqn:Edata.
  { simpl. split_and!; split; try done.
    - by intros [? ?].
    - by intros (_ & ? & _).
    - intros _. split; [done|by left]. }
  destruct (last (front :: l)) as [back|] eqn:Elast.
  2: { by apply last_None in Elast. }
  destruct (decide (dim = 2 ∨ dim = 3)) as [Hdim|Hdim].
  { rewrite segments_spec by done. split_and!; split; try done.
    - intros _. split_and!; [done|done|]. destruct Hdim; [by left|right; by left].
    - intros _. eauto.
    - intros [_ [?|[? _]]]; done. }
  destruct l as [|b l].
  { simpl. split_and!; split; try done.
    - intros _. split_and!; [done|done|]. right; by right.
    - intros _. eauto.
    - intros [_ [?|[_ Hlen]]]; [done|]. simpl in Hlen. lia. }
  rewrite segments_other_dim by done. split_and!; split; try done.
  - by intros [? ?].
  - intros (_ & _ & [?|[?|Hlen]]); [| |simpl in Hlen; lia]; exfalso; apply Hdim; auto.
  - intros _. split; [done|]. right. split; [done|]. simpl. lia.
Qed.

End TrajectoryMore.

(* ===================================================================== *)
(** * Properties of saveMesh                                              *)
(* ===================================================================== *)

Section SaveMeshFacts.
Context {B : Type}.
Variables (N : nat) (dflt : LinaVector) (box0 : B) (include : B → LinaVector → B).
Implicit Types (geo corner : list LinaVector) (box : B).
Import SaveMesh.

(** The array after [c] turns: the last [c] entries hold the corners
    [c-1], ..., 0 of the geometry, the others are as constructed. *)
Definition filled geo (c : nat) corner : Prop :=
  length corner = N
  ∧ ∀ j, j < N →
         corner !! j = Some (if decide (j < N - c) then dflt
                             else default dflt (geo !! (N - 1 - j))).

Lemma filled_start geo : filled geo 0 (replicate N dflt).
Proof.
  split; [by rewrite length_replicate|]. intros j Hj.
  rewrite decide_True by lia. by apply lookup_replicate_2.
Qed.

Lemma corner_turn_filled geo c corner box :
  c < N → N ≤ length geo → filled geo c corner →
  ∃ corner',
    corner_turn N include geo (corner, box) c
    = Return (corner', include box (included_at N dflt geo c))
    ∧ filled geo (S c) corner'.
Proof.
  intros Hc Hgeo [Hlen Hfill].
  destruct (lookup_lt_is_Some_2 geo c) as [g Hg]; [lia|].
  unfold corner_turn. rewrite Hg. simpl.
  assert (∀ j, j < N →
            <[N - c - 1 := g]> corner !! j
            = Some (if decide (j < N - S c) then dflt
                    else default dflt (geo !! (N - 1 - j)))) as Hfill'.
  { intros j Hj. destruct (decide (j = N - c - 1)) as [->|Hne].
    - rewrite list_lookup_insert_eq by lia. rewrite decide_False by lia.
      replace (N - 1 - (N - c - 1)) with c by lia. by rewrite Hg.
    - rewrite list_lookup_insert_ne by lia. rewrite Hfill by done.
      destruct (decide (j < N - c)), (decide (j < N - S c)); try done; lia. }
  exists (<[N - c - 1 := g]> corner). rewrite (Hfill' c Hc). split.
  - do 2 f_equal. unfold included_at.
    destruct (decide (c < N - S c)), (decide (N ≤ 2 * c + 1)); try done; try lia.
    by replace (N - c - 1) with (N - 1 - c) by lia.
  - split; [by rewrite length_insert|done].
Qed.

Lemma corner_loop_filled geo n c corner box :
  c + n = N → N ≤ length geo → filled geo c corner →
  ∃ corner',
    corner_loop N include geo (seq c n) (corner, box)
    = Return (corner', fold_left include (included_at N dflt geo <$> seq c n) box)
    ∧ filled geo N corner'.
Proof.
  revert c corner box. induction n as [|n IH]; intros c corner box Hn Hgeo Hfill; simpl.
  - exists corner. split; [done|]. by replace N with c by lia.
  - destruct (corner_turn_filled geo c corner box) as (corner1 & -> & Hfill1);
      [lia|done|done|].
    apply IH; [lia|done|done].
Qed.

Lemma filled_reverse geo corner :
  N ≤ length geo → filled geo N corner → corner = reverse (take N geo).
Proof.
  intros Hgeo [Hlen Hfill]. apply list_eq. intros j.
  destruct (decide (j < N)) as [Hj|Hj].
  - rewrite Hfill by done. rewrite decide_False by lia.
    rewrite reverse_lookup by (rewrite length_take; lia).
    rewrite length_take, Nat.min_l by lia.
    rewrite lookup_take_lt by lia.
    replace (N - S j) with (N - 1 - j) by lia.
    destruct (lookup_lt_is_Some_2 geo (N - 1 - j)) as [g Hg]; [lia|]. by rewrite Hg.
  - rewrite !lookup_ge_None_2; [done| |lia].
    rewrite length_reverse, length_take. lia.
Qed.

Lemma element_loop_cubes (gridView : list (list LinaVector)) cs box :
  Forall (λ geo, N ≤ length geo) gridView →
  element_loop N dflt include gridView (cs, box)
  = Return (cs ++ ((λ geo, reverse (take N geo)) <$> gridView),
            fold_left include (concat (included N dflt <$> gridView)) box).
Proof.
  revert cs box. induction gridView as [|geo gridView IH]; intros cs box Hall; simpl.
  - by rewrite app_nil_r.
  - apply Forall_cons in Hall as [Hgeo Hall]. unfold element_turn.
    destruct (corner_loop_filled geo N 0 (replicate N dflt) box)
      as (corner & Hloop & Hfill); [done|done|apply filled_start|].
    simpl. rewrite Hloop. rewrite IH by done.
    rewrite (filled_reverse geo corner) by done.
    rewrite fold_left_app. by rewrite <- app_assoc.
Qed.

(** X18: for a grid view whose elements have [NUM_CORNERS] corners each,
    [saveMesh] hands to [hxgeomatch::save] the path it was given and a mesh
    with one cube per element, in order, whose corners are the corners of
    the geometry in reverse order.  The box of the mesh has absorbed, for
    each element and each turn [c] of the inner loop, the entry [c] of the
    corner array as it is at that moment: a default-constructed vector while
    [2c + 1 < NUM_CORNERS], the geometry corner [NUM_CORNERS - 1 - c] from
    then on.  The higher-numbered half of the corners of an element is
    never included. *)
Theorem saveMesh_cubes_and_box (gridView : list (list LinaVector)) (path : string) :
  Forall (λ geo, length geo = N) gridView →
  saveMesh N dflt box0 include gridView path
  = Return (path,
            mk_CubeMesh (reverse <$> gridView)
                        (fold_left include (concat (included N dflt <$> gridView)) box0)
                        EmptyString).
Proof.
  intros Hall. unfold saveMesh. rewrite element_loop_cubes.
  - simpl. do 3 f_equal. apply list_fmap_ext. intros _ geo Hgeo%list_elem_of_lookup_2.
    rewrite Forall_forall in Hall. by rewrite <- (Hall geo Hgeo), firstn_all.
  - eapply Forall_impl; [done|]. simpl. intros geo ->. done.
Qed.

(** The first element with fewer corners than the loop asks for makes the
    function read a corner the geometry does not have. *)
Lemma element_loop_short (gridView : list (list LinaVector)) cs box :
  Exists (λ geo, length geo < N) gridView →
  element_loop N dflt include gridView (cs, box) = Undefined.
Proof.
  revert cs box. induction gridView as [|geo gridView IH]; intros cs box Hex.
  - by apply Exists_nil in Hex.
  - simpl. unfold element_turn.
    destruct (decide (length geo < N)) as [Hshort|Hlong].
    + clear IH Hex.
      assert (∀ n c corner box',
                c + n = N → c ≤ length geo → filled geo c corner →
                corner_loop N include geo (seq c n) (corner, box') = Undefined) as Hloop.
      { induction n as [|n IHn]; intros c corner box' Hn Hc Hfill; [lia|]. simpl.
        destruct (decide (c < length geo)) as [Hlt|Hge].
        - destruct (lookup_lt_is_Some_2 geo c) as [g Hg]; [done|].
          unfold corner_turn. rewrite Hg. simpl.
          destruct Hfill as [Hlen Hfill].
          destruct (lookup_lt_is_Some_2 (<[N - c - 1 := g]> corner) c) as [x Hx].
          { rewrite length_insert. lia. }
          rewrite Hx. apply IHn; [lia|lia|].
          split; [by rewrite length_insert|]. intros j Hj.
          destruct (decide (j = N - c - 1)) as [->|Hne].
          + rewrite list_lookup_insert_eq by lia. rewrite decide_False by lia.
            replace (N - 1 - (N - c - 1)) with c by lia. by rewrite Hg.
          + rewrite list_lookup_insert_ne by lia. rewrite Hfill by done.
            destruct (decide (j < N - c)), (decide (j < N - S c)); try done; lia.
        - unfold corner_turn. by rewrite lookup_ge_None_2 by lia. }
      rewrite (Hloop N 0); [done|done|lia|apply filled_start].
    + apply Exists_cons in Hex as [?|Hex]; [done|].
      destruct (corner_loop_filled geo N 0 (replicate N dflt) box)
        as (corner & Hloop & Hfill); [done|lia|apply filled_start|].
      simpl. rewrite Hloop. by apply IH.
Qed.

(** X19: [saveMesh] returns exactly when every element of the grid view
    has at least [NUM_CORNERS] corners; with an element that has fewer, the
    inner loop asks the geometry for a corner it does not have. *)
Theorem saveMesh_returns_iff (gridView : list (list LinaVector)) (path : string) :
  ((∃ r, saveMesh N dflt box0 include gridView path = Return r)
   ↔ Forall (λ geo, N ≤ length geo) gridView)
  ∧ (saveMesh N dflt box0 include gridView path = Undefined
     ↔ Exists (λ geo, length geo < N) gridView).
Proof.
  destruct (decide (Forall (λ geo, N ≤ length geo) gridView)) as [Hall|Hex].
  - unfold saveMesh. rewrite element_loop_cubes by done. split; split; try done.
    + intros _. eauto.
    + intros Hshort. apply Exists_exists in Hshort as (geo & Hin & Hlt).
      rewrite Forall_forall in Hall. specialize (Hall geo Hin). lia.
  - assert (Exists (λ geo, length geo < N) gridView) as Hshort.
    { apply not_Forall_Exists in Hex; [|apply _].
      eapply Exists_impl; [done|]. simpl. intros geo ?. lia. }
    unfold saveMesh. rewrite element_loop_short by done. split; split; try done.
    by intros [? ?].
Qed.

End SaveMeshFacts.

(* ===================================================================== *)
(** * Properties of FemTest::integrate                                    *)
(* ===================================================================== *)

Section IntegrateFacts.
Context {E : Type}.
Variable pl_eval : LinaVector → bool * FemTest.Result.
Import FemTest.

Lemma rhs_cases (xv : LinaVector) :
  ((pl_eval xv).1 = true ∧ rhs pl_eval xv = Return (pl_eval xv).2)
  ∨ ((pl_eval xv).1 = false ∧ rhs pl_eval xv = Throw).
Proof. unfold rhs. destruct (pl_eval xv).1; [by left|by right]. Qed.

(** A turn that completes has pushed one sample, taken at the time of the
    turn, and has left the time to the loop. *)
Lemma turn_Return (s s' : State) :
  turn pl_eval s = Return s' →
  t s' = t s
  ∧ traj s' = Trajectory.push_back (traj s) (Trajectory.mk_XT (xn s') (t s)).
Proof.
  unfold turn.
  destruct (rhs pl_eval (xo s)) as [du0| |]; [|done..].
  destruct (rhs pl_eval _) as [du1| |]; [|done..].
  by intros [= <-].
Qed.

Lemma turn_located (s : State) :
  (∀ xv, (pl_eval xv).1 = true) → ∃ s', turn pl_eval s = Return s'.
Proof.
  intros Hall. unfold turn.
  destruct (rhs_cases (xo s)) as [[_ ->]|[Hf _]]; [|by rewrite Hall in Hf].
  match goal with |- context [rhs pl_eval ?y] =>
    destruct (rhs_cases y) as [[_ ->]|[Hf _]]; [|by rewrite Hall in Hf] end.
  eauto.
Qed.

Lemma ticks_more fuel k (t0 : Real) (n : nat) :
  ticks fuel t0 = Some n → ticks (fuel + k) t0 = Some n.
Proof.
  revert t0 n. induction fuel as [|fuel IH]; intros t0 n; simpl; [done|].
  destruct (PrimFloat.ltb t0 t_end); [|done].
  destruct (ticks fuel (PrimFloat.add t0 dt)) as [m|] eqn:Em; [|done].
  by rewrite (IH _ _ Em).
Qed.

(** From time 0 the loop takes 50001 turns. *)
Lemma ticks_from_zero fuel :
  2 ^ 16 ≤ fuel → ∃ n, ticks fuel 0%float = Some n ∧ Z.of_nat n = 50001%Z.
Proof.
  intros Hfuel.
  assert (Z.of_nat <$> ticks (2 ^ 16) 0%float = Some 50001%Z) as Hcount
    by (vm_compute; reflexivity).
  destruct (ticks (2 ^ 16) 0%float) as [n|] eqn:En; [|done].
  exists n. split; [|by injection Hcount].
  replace fuel with (2 ^ 16 + (fuel - 2 ^ 16)) by lia. by apply ticks_more.
Qed.

(** The loop and the count of its turns. *)
Lemma loop_counts fuel (s : State) :
  Trajectory.adepting (traj s) = false →
  match loop pl_eval fuel s with
  | (Completed, tr) =>
      ∃ n, ticks fuel (t s) = Some n
           ∧ Trajectory.adepting tr = false
           ∧ length (Trajectory.data tr) = length (Trajectory.data (traj s)) + n
  | (Thrown, tr) => True
  | (OutOfFuel, tr) => ticks fuel (t s) = None
  end.
Proof.
  revert s. induction fuel as [|fuel IH]; intros s Had; simpl; [done|].
  destruct (PrimFloat.ltb (t s) t_end).
  - destruct (turn pl_eval s) as [s'| |] eqn:Eturn; [|done..].
    apply turn_Return in Eturn as [Ht Htraj].
    specialize (IH (mk_State (PrimFloat.add (t s') dt)
                             (xo s') (xn s') (vo s') (vn s') (traj s'))).
    simpl in IH. rewrite Htraj, Ht in IH. unfold Trajectory.push_back in IH.
    rewrite Had in IH. simpl in IH. specialize (IH eq_refl).
    rewrite Htraj, Ht. unfold Trajectory.push_back. rewrite Had.
    destruct (loop pl_eval fuel _) as [[| |] tr]; [|done|by rewrite IH].
    destruct IH as (n & -> & Had' & Hlen). exists (S n). split_and!; [done|done|].
    rewrite Hlen, length_app. simpl. lia.
  - exists 0. split_and!; [done|done|lia].
Qed.

Lemma loop_located fuel (s : State) :
  (∀ xv, (pl_eval xv).1 = true) → (loop pl_eval fuel s).1 ≠ Thrown.
Proof.
  intros Hall. revert s. induction fuel as [|fuel IH]; intros s; simpl; [done|].
  destruct (PrimFloat.ltb (t s) t_end); [|done].
  destruct (turn_located s Hall) as [s' ->]. apply IH.
Qed.

Lemma length_concat_pairs {A C : Type} (f g : A → C) (l : list A) :
  length (concat ((λ a, [f a; g a]) <$> l)) = 2 * length l.
Proof.
  induction l as [|a l IH]; [done|].
  rewrite fmap_cons. simpl concat. simpl length. rewrite IH. lia.
Qed.

Lemma length_zip_tail {A : Type} (l : list A) :
  length (zip l (tail l)) = length l - 1.
Proof.
  destruct l as [|a l]; [done|]. cbn [tail]. rewrite length_zip_with.
  cbn [length]. lia.
Qed.

(** What [writeVTK] gives for a trajectory that has samples, in the
    dimension of the test. *)
Lemma writeVTK_lengths (tr : Trajectory.Trajectory) (path : string) :
  Trajectory.adepting tr = false → Trajectory.data tr ≠ [] →
  ∃ pd, Trajectory.writeVTK dimw tr path = Return (path, pd)
        ∧ length (Trajectory.Points pd) = 2 * (length (Trajectory.data tr) - 1)
        ∧ length (Trajectory.Polys pd) = length (Trajectory.data tr) - 1.
Proof.
  intros Had Hne. unfold Trajectory.writeVTK. rewrite Had.
  destruct (Trajectory.data tr) as [|front l] eqn:Edata; [done|].
  destruct (last (front :: l)) as [back|] eqn:Elast.
  2: { by apply last_None in Elast. }
  rewrite segments_spec by (by left). eexists. split; [done|].
  cbn [Trajectory.Points Trajectory.Polys app].
  rewrite (length_concat_pairs
             (λ ab, Trajectory.point dimw _ ab.1) (λ ab, Trajectory.point dimw _ ab.2)).
  by rewrite !length_fmap, length_seq, length_zip_tail.
Qed.

(** X20: called while no exception is being handled, [integrate] writes
    all of the trajectory or nothing.  With enough fuel for the loop it
    either terminates the program -- a failed [rhs] is not caught by the
    [catch (...)] around the loop -- or hands to the writer, under the name
    traj.vtp, the 100000 points and 50000 lines of the 50001 samples the
    loop takes from t = 0 to t < 200 + .1*dt in steps of dt. *)
Theorem integrate_all_or_nothing (fuel : nat) :
  2 ^ 16 ≤ fuel →
  integrate pl_eval (E := E) None fuel = Some Terminate
  ∨ ∃ pd, integrate pl_eval (E := E) None fuel = Some (Value ("traj.vtp"%string, pd))
          ∧ Z.of_nat (length (Trajectory.Points pd)) = 100000%Z
          ∧ Z.of_nat (length (Trajectory.Polys pd)) = 50000%Z.
Proof.
  intros Hfuel. unfold integrate.
  destruct (ticks_from_zero fuel Hfuel) as (n & Hn & Hn').
  pose proof (loop_counts fuel State_init eq_refl) as Hloop.
  destruct (loop pl_eval fuel State_init) as [[| |] tr].
  - right. destruct Hloop as (m & Hm & Had & Hlen).
    change (t State_init) with 0%float in Hm. simplify_eq. simpl in Hlen.
    destruct (writeVTK_lengths tr "traj.vtp" Had) as (pd & -> & Hp & Hl).
    { intros Hnil. rewrite Hnil in Hlen. simpl in Hlen. lia. }
    exists pd. split; [done|]. lia.
  - by left.
  - change (t State_init) with 0%float in Hloop. congruence.
Qed.

(** X21: when the point locator finds every point it is asked for,
    [integrate] does write the trajectory, whether or not an exception is
    being handled by the caller: 50001 samples, 100000 points, 50000
    lines. *)
Theorem integrate_located (handled : option E) (fuel : nat) :
  (∀ xv, (pl_eval xv).1 = true) → 2 ^ 16 ≤ fuel →
  ∃ pd, integrate pl_eval handled fuel = Some (Value ("traj.vtp"%string, pd))
        ∧ Z.of_nat (length (Trajectory.Points pd)) = 100000%Z
        ∧ Z.of_nat (length (Trajectory.Polys pd)) = 50000%Z.
Proof.
  intros Hall Hfuel. unfold integrate.
  destruct (ticks_from_zero fuel Hfuel) as (n & Hn & Hn').
  pose proof (loop_counts fuel State_init eq_refl) as Hloop.
  pose proof (loop_located fuel State_init Hall) as Hnot.
  destruct (loop pl_eval fuel State_init) as [[| |] tr]; simpl in Hnot.
  - destruct Hloop as (m & Hm & Had & Hlen).
    change (t State_init) with 0%float in Hm. simplify_eq. simpl in Hlen.
    destruct (writeVTK_lengths tr "traj.vtp" Had) as (pd & -> & Hp & Hl).
    { intros Hnil. rewrite Hnil in Hlen. simpl in Hlen. lia. }
    exists pd. split; [done|]. lia.
  - done.
  - change (t State_init) with 0%float in Hloop. congruence.
Qed.

(** X22: when the point locator does not find the start position, the
    first call of [rhs] fails with an empty trajectory.  Outside a handler
    the program is terminated and [writeVTK] is not reached; inside a
    handler the rethrown exception is swallowed and [writeVTK] is called on
    the empty trajectory, where [data.front()] is undefined. *)
Theorem integrate_start_not_located (fuel : nat) :
  (pl_eval (xo State_init)).1 = false → 0 < fuel →
  integrate pl_eval (E := E) None fuel = Some Terminate
  ∧ ∀ e : E, integrate pl_eval (Some e) fuel = Some Unspecified.
Proof.
  intros Hstart Hfuel. unfold integrate.
  destruct fuel as [|fuel]; [lia|].
  assert (loop pl_eval (S fuel) State_init = (Thrown, Trajectory.Trajectory_new)) as ->.
  { simpl. change (PrimFloat.ltb (t State_init) t_end) with true. cbv iota.
    unfold turn. destruct (rhs_cases (xo State_init)) as [[Hf _]|[_ ->]]; [|done].
    by rewrite Hstart in Hf. }
  done.
Qed.

End IntegrateFacts.

(* ===================================================================== *)
(** * The further properties on concrete inputs                           *)
(* ===================================================================== *)

Section MoreScenarios.
Import Tree Meshes.
#[local] Existing Instance grid.
#[local] Existing Instance libstdcxx.

(** The thin mesh: both triangles have two corners resolved to the vertex
    at position 0, which lists each of them twice. *)
Lemma incidence_lists_record_owners_witness :
  offset <$> [mk_pointer 1 0; mk_pointer 1 0; mk_pointer 2 1; mk_pointer 2 1]
  = owners_of 0 (incidence (B := BoundingBox) [S0; S1]).
Proof.
  apply (incidence_lists_record_owners (B := BoundingBox) [S0; S1] 0
           (mk_Vertex [0x12p-52; 0]%float
              [mk_pointer 1 0; mk_pointer 1 0; mk_pointer 2 1; mk_pointer 2 1])).
  vm_compute. reflexivity.
Defined.

Lemma last_element_seeds_are_live_witness :
  deref (_entities (this (Root_ctor (B := BoundingBox) ([T0] ++ [T1])))) (mk_pointer 2 1)
  = Some (seed T1).
Proof.
  apply (last_element_seeds_are_live (B := BoundingBox) [T0] T1
           (mk_Vertex [1; 1]%float [mk_pointer 2 1]) (mk_pointer 2 1)).
  - apply list_elem_of_lookup. exists 3. vm_compute. reflexivity.
  - apply list_elem_of_here.
  - reflexivity.
Defined.

Lemma findEntity_sound_witness :
  checkInside_local 0 [0.25; 0.25]%float = true
  ∧ ∃ s, s ∈ elems (_entities (this (Root_ctor (B := BoundingBox) [T0])))
         ∧ 0 = entityPointer s.
Proof.
  apply (findEntity_sound (findNode (Root_ctor (B := BoundingBox) [T0]))
           (this (Root_ctor (B := BoundingBox) [T0])) [0.25; 0.25]%float 0).
  vm_compute. reflexivity.
Defined.

Lemma findEntity_one_element_witness :
  findEntity (findNode (Root_ctor (B := BoundingBox) [T0]))
             (this (Root_ctor (B := BoundingBox) [T0])) [0.25; 0.25]%float
  = if checkInside_local (entityPointer (seed T0)) [0.25; 0.25]%float
    then Return (entityPointer (seed T0)) else Throw.
Proof.
  apply (findEntity_one_element (B := BoundingBox) T0
           (findNode (Root_ctor (B := BoundingBox) [T0])) [0.25; 0.25]%float
           (leaf (Root_ctor (B := BoundingBox) [T0]))
           (mk_Vertex [0; 0]%float [mk_pointer 1 0])).
  - vm_compute. reflexivity.
  - vm_compute. reflexivity.
  - apply list_elem_of_lookup. exists 0. vm_compute. reflexivity.
Defined.

(** A trajectory in adepting mode with two samples in its deque. *)
Definition two_in_deque : Trajectory.Trajectory :=
  Trajectory.mk_Trajectory true []
    [Trajectory.mk_XT [0; 0]%float 0%float; Trajectory.mk_XT [1; 1]%float 1%float].

Lemma insert_at_position_witness :
  ∃ tr', Trajectory.insert_at two_in_deque (Trajectory.mk_XT [0.5; 0.5]%float 0.5%float) 1
         = Return tr'
         ∧ Trajectory.adepting tr' = true
         ∧ Trajectory.data tr' = Trajectory.data two_in_deque
         ∧ length (Trajectory.dq tr') = S (length (Trajectory.dq two_in_deque))
         ∧ Trajectory.dq tr' !! 1 = Some (Trajectory.mk_XT [0.5; 0.5]%float 0.5%float)
         ∧ (∀ j, j < 1 → Trajectory.dq tr' !! j = Trajectory.dq two_in_deque !! j)
         ∧ (∀ j, 1 ≤ j → Trajectory.dq tr' !! S j = Trajectory.dq two_in_deque !! j).
Proof.
  apply (insert_at_position two_in_deque (Trajectory.mk_XT [0.5; 0.5]%float 0.5%float) 1).
  - reflexivity.
  - simpl. lia.
Defined.

(** Three samples at the times 0, 1, 2. *)
Definition three_samples : Trajectory.Trajectory :=
  Trajectory.mk_Trajectory false
    [Trajectory.mk_XT [0; 0]%float 0%float; Trajectory.mk_XT [1; 0]%float 1%float;
     Trajectory.mk_XT [1; 1]%float 2%float]
    [].

Lemma writeVTK_polydata_witness :
  ∃ front back,
    head (Trajectory.data three_samples) = Some front
    ∧ last (Trajectory.data three_samples) = Some back
    ∧ Trajectory.writeVTK 2 three_samples "traj.vtp" =
      Return ("traj.vtp"%string, Trajectory.mk_PolyData
        (concat ((λ ab, [Trajectory.point 2 (Trajectory.time_scale front back) ab.1;
                         Trajectory.point 2 (Trajectory.time_scale front back) ab.2])
                   <$> zip (Trajectory.data three_samples)
                           (tail (Trajectory.data three_samples))))
        ((λ k, [2 * k]) <$> seq 0 (length (Trajectory.data three_samples) - 1))
        ((λ k, [2 * k; S (2 * k)])
           <$> seq 0 (length (Trajectory.data three_samples) - 1))).
Proof.
  apply (writeVTK_polydata 2 three_samples "traj.vtp").
  - reflexivity.
  - discriminate.
  - left. reflexivity.
Defined.

(** The unit square as one element with four corners. *)
Definition square : list LinaVector := [[0; 0]; [1; 0]; [0; 1]; [1; 1]]%float.

Lemma saveMesh_cubes_and_box_witness :
  SaveMesh.saveMesh 4 [7; 7]%float [] (λ log v, log ++ [v]) [square] "mesh.xml"
  = Return ("mesh.xml"%string,
            SaveMesh.mk_CubeMesh (reverse <$> [square])
              (fold_left (λ log v, log ++ [v])
                         (concat (SaveMesh.included 4 [7; 7]%float <$> [square])) [])
              EmptyString).
Proof.
  apply (saveMesh_cubes_and_box 4 [7; 7]%float [] (λ log v, log ++ [v]) [square] "mesh.xml").
  repeat constructor.
Defined.

(** A point locator that finds every point, and one that finds none. *)
Definition finds_all : LinaVector → bool * FemTest.Result :=
  λ _, (true, FemTest.mk_Result [] 0%float [1; 1]%float).
Definition finds_none : LinaVector → bool * FemTest.Result :=
  λ _, (false, FemTest.mk_Result [] 0%float [1; 1]%float).

Lemma integrate_all_or_nothing_witness :
  FemTest.integrate finds_all (E := unit) None (2 ^ 16) = Some Terminate
  ∨ ∃ pd, FemTest.integrate finds_all (E := unit) None (2 ^ 16)
          = Some (Value ("traj.vtp"%string, pd))
          ∧ Z.of_nat (length (Trajectory.Points pd)) = 100000%Z
          ∧ Z.of_nat (length (Trajectory.Polys pd)) = 50000%Z.
Proof.
  apply (integrate_all_or_nothing (E := unit) finds_all (2 ^ 16)). apply le_n.
Defined.

Lemma integrate_located_witness :
  ∃ pd, FemTest.integrate finds_all (E := unit) None (2 ^ 16)
        = Some (Value ("traj.vtp"%string, pd))
        ∧ Z.of_nat (length (Trajectory.Points pd)) = 100000%Z
        ∧ Z.of_nat (length (Trajectory.Polys pd)) = 50000%Z.
Proof.
  apply (integrate_located (E := unit) finds_all None (2 ^ 16)).
  - intros xv. reflexivity.
  - apply le_n.
Defined.

Lemma integrate_start_not_located_witness :
  FemTest.integrate finds_none (E := unit) None 1 = Some Terminate
  ∧ ∀ e : unit, FemTest.integrate finds_none (Some e) 1 = Some Unspecified.
Proof.
  apply (integrate_start_not_located (E := unit) finds_none 1).
  - reflexivity.
  - lia.
Defined.

End MoreScenarios.
